(** * chall-manager: the scenario engine adapter (package [iac]) and the
      archive extraction of [PushScenario]

    A shallow embedding of [pkg/iac/stack.go], [pkg/iac/validate.go],
    [global.Configuration] and of the extraction loop of
    [api/v1/challenge/secrets.go], with the properties of the
    specification stated over it.

    Collaborators that live outside the repository (the Pulumi automation
    API, the OCI manager, the operating system, [encoding/json],
    [yaml.v3], [crypto/rand]) are not re-implemented: what they answer is
    a field of the record [World], and every statement is quantified over
    all worlds. *)

From Stdlib Require Import ZArith List Ascii String.
From stdpp Require Import gmap strings list fin_maps vector.

Set Warnings "-register-all".
Open Scope Z_scope.
Open Scope string_scope.

(** ** Go values *)

(** A dynamically typed value ([any]) as JSON decoding produces it. *)
Inductive any : Type :=
| AString (s : string)
| ANumber (bits : Z)
| ABool (b : bool)
| ANil
| AArray (elems : list any)
| AMap (fields : list (string * any)).

(** The type assertion [v.(string)], in its two-result form. *)
Definition as_string (v : any) : option string :=
  match v with AString s => Some s | _ => None end.

(** The type assertion [v.([]any)], in its two-result form. *)
Definition as_array (v : any) : option (list any) :=
  match v with AArray l => Some l | _ => None end.

(** [int64] wrap-around, for [time.Duration] arithmetic. *)
Definition wrap64 (z : Z) : Z := (z + 2 ^ 63) mod 2 ^ 64 - 2 ^ 63.

Module time.
(** [time.Duration]: a count of nanoseconds in an [int64]. *)
Definition Duration := Z.
Definition Second : Duration := 1000000000.
Definition Minute : Duration := 60 * Second.
Definition mul (a b : Duration) : Duration := wrap64 (a * b).
End time.

Module context.
(** What [ctx.Err()] answers. *)
Inductive Err := Alive | Canceled | DeadlineExceeded.

Definition Err_eqb (a b : Err) : bool :=
  match a, b with
  | Alive, Alive | Canceled, Canceled | DeadlineExceeded, DeadlineExceeded => true
  | _, _ => false
  end.
End context.

(** ** Errors *)

Module errs.
(** Error values. [Raised] is an error a collaborator hands back;
    [Wrap] is [errors.Wrap]/[errors.Wrapf]; [Errorf] is [fmt.Errorf],
    with the duration and the value it formats and the error its [%w]
    verb wraps; [ErrInternal] and [ErrScenario] are the two typed errors
    of package [errs] the adapter builds. *)
Inductive error : Type :=
| Raised (msg : string)
| Wrap (sub : error) (msg : string)
| Errorf (format : string) (dur : option Z) (val : option any) (wrapped : option error)
| ErrInternal (Sub : error)
| ErrScenario (Sub : error).

(** The kinds of the specification's error taxonomy. *)
Inductive Kind := Internal | InvalidArgument | DeadlineExceeded | Unknown.

(** Modelled from the spec: the table that maps typed errors to kinds
    (package [errs] and the gRPC surface are not part of the sources at
    hand). [ErrInternal] is an engine or store failure, [ErrScenario] a
    scenario failure surfaced as [InvalidArgument]; an error that is
    neither carries no kind of its own. *)
Definition kind (e : error) : Kind :=
  match e with
  | ErrInternal _ => Internal
  | ErrScenario _ => InvalidArgument
  | _ => Unknown
  end.

(** The error directly wrapped by [e], when it wraps one. *)
Definition unwrap (e : error) : option error :=
  match e with
  | Raised _ => None
  | Wrap sub _ => Some sub
  | Errorf _ _ _ w => w
  | ErrInternal sub => Some sub
  | ErrScenario sub => Some sub
  end.

(** [wraps n e cause]: [cause] is reached from [e] in at most [n]
    unwrapping steps. *)
Fixpoint wraps (n : nat) (e cause : error) : Prop :=
  e = cause \/
  match n with
  | O => False
  | S n' => match unwrap e with Some sub => wraps n' sub cause | None => False end
  end.
End errs.
Export errs.

(** Results of fallible calls: Go's [(value, error)] pair. *)
Inductive result (A : Type) : Type :=
| Ok (a : A)
| Err (e : error).
Arguments Ok {A} a.
Arguments Err {A} e.

(** Sequencing with early return on failure, under stdpp's [x ← r; k]. *)
#[global] Instance result_ret : MRet result := fun A a => Ok a.
#[global] Instance result_bind : MBind result := fun A B k r =>
  match r with Ok a => k a | Err e => Err e end.

(** Re-typing of a failure, as in [if err != nil { return nil, f(err) }]. *)
Definition map_err {A} (f : error -> error) (r : result A) : result A :=
  match r with Ok a => Ok a | Err e => Err (f e) end.

(** ** Configuration and records *)

Module global.
(** [global.Configuration], the fields the adapter reads. *)
Record Configuration := {
  Directory : string;
  Cache : string;
  LogLevel : string;
  PulumiTimeout : Z;
  OCI_Insecure : bool;
  OCI_Username : string;
  OCI_Password : string
}.
End global.

Module fsapi.
(** Modelled from the spec: the declaration of [fs.Challenge] is not in
    the sources at hand; the fields are those of the data model, under
    the names the adapter uses ([ID], [Scenario], [ImagePullSecrets],
    [Additional]). Instants and durations are integers. *)
Record Challenge := {
  ID : string;
  Scenario : string;
  Hash : string;
  ChallUntil : option Z;
  Timeout : option Z;
  Min : Z;
  Max : Z;
  Additional : gmap string string;
  ImagePullSecrets : list string
}.

(** Modelled from the spec: the declaration of [fs.Instance] is not in
    the sources at hand; the fields are those of the data model, under
    the names the adapter uses ([State], [ConnectionInfo], [Flags]).
    [State] holds the raw deployment, [None] before the first export. *)
Record Instance := {
  Identity : string;
  ChallengeID : string;
  SourceID : string;
  Since : Z;
  LastRenew : Z;
  Until : option Z;
  ConnectionInfo : string;
  Flags : list string;
  State : option string;
  IstAdditional : gmap string string
}.
End fsapi.

(** ** Paths and strings of the Go standard library *)

Module strings.
(** [strings.HasPrefix(s, prefix)]. *)
Fixpoint HasPrefix (s pre : string) {struct pre} : bool :=
  match pre, s with
  | EmptyString, _ => true
  | String a pre', String b s' => if Ascii.eqb a b then HasPrefix s' pre' else false
  | String _ _, EmptyString => false
  end.

(** [strings.Split(s, "/")]: the text between the separators, empty
    pieces included. *)
Fixpoint Split (s : string) : list string :=
  match s with
  | EmptyString => [EmptyString]
  | String c s' =>
      if Ascii.eqb c "/"%char then EmptyString :: Split s'
      else match Split s' with
           | x :: xs => String c x :: xs
           | [] => [String c EmptyString]
           end
  end.

(** [strings.Join(elems, "/")]. *)
Fixpoint Join (elems : list string) : string :=
  match elems with
  | [] => EmptyString
  | [e] => e
  | e :: rest => e ++ "/" ++ Join rest
  end.
End strings.

Module filepath.
(** The elements of a cleaned path, innermost first, as [Clean] builds
    them while it reads the elements of its argument from left to right:
    an empty element and [.] are dropped; [..] removes the element
    before it when that is a name, is kept at the front of a relative
    path, and is dropped at the root; a name is appended. *)
Definition clean_elem (rooted : bool) (out : list string) (e : string) : list string :=
  if String.eqb e "" then out
  else if String.eqb e "." then out
  else if String.eqb e ".." then
    match out with
    | top :: rest =>
        if String.eqb top ".." then (if rooted then out else e :: out) else rest
    | [] => if rooted then out else [e]
    end
  else e :: out.

Definition is_rooted (path : string) : bool := strings.HasPrefix path "/".

Definition clean_elems (path : string) : list string :=
  rev (fold_left (clean_elem (is_rooted path)) (strings.Split path) []).

(** The text of a cleaned path: its elements joined by single
    separators after the root, and [.] for the empty relative path. *)
Definition render (rooted : bool) (elems : list string) : string :=
  if rooted then "/" ++ strings.Join elems
  else match elems with [] => "." | _ => strings.Join elems end.

(** [filepath.Clean] on a system whose separator is [/]. *)
Definition Clean (path : string) : string :=
  render (is_rooted path) (clean_elems path).

(** [filepath.Join]: the elements from the first non-empty one on are
    joined by separators and cleaned; the result is empty when all
    elements are. *)
Fixpoint Join (elems : list string) : string :=
  match elems with
  | [] => ""
  | e :: rest => if String.eqb e "" then Join rest else Clean (strings.Join elems)
  end.

(** The part of [path] up to and including its last separator. *)
Fixpoint through_last_sep (path : string) : string :=
  match path with
  | EmptyString => EmptyString
  | String c rest =>
      if Ascii.eqb c "/"%char || negb (String.eqb (through_last_sep rest) "")
      then String c (through_last_sep rest) else EmptyString
  end.

(** [filepath.Dir]: all but the last element of [path], cleaned. *)
Definition Dir (path : string) : string := Clean (through_last_sep path).
End filepath.

(** [hex.EncodeToString]. *)
Module hex.
Definition digit (n : nat) : ascii :=
  nth n (list_ascii_of_string "0123456789abcdef") "0"%char.

Fixpoint EncodeToString (src : list Byte.byte) : string :=
  match src with
  | [] => EmptyString
  | b :: rest =>
      let n := Byte.to_nat b in
      String (digit (Nat.div n 16)) (String (digit (Nat.modulo n 16)) (EncodeToString rest))
  end.
End hex.

(** ** The Pulumi automation API, as far as the adapter sees it *)

Module auto.
(** [auto.ConfigValue]. *)
Record ConfigValue := { Value : string; Secret : bool }.

(** [auto.OutputValue]. *)
Record OutputValue := { OValue : any; OSecret : bool }.

(** [auto.UpResult]; [Outputs] is [None] for a nil map. *)
Record UpResult := {
  StdOut : string;
  StdErr : string;
  Outputs : option (gmap string OutputValue)
}.

(** [apitype.UntypedDeployment]. *)
Record UntypedDeployment := { Version : Z; Deployment : string }.

(** A local workspace: the program directory and its environment. *)
Record Workspace := { WorkDir : string; EnvVars : gmap string string }.

(** A stack handle: its fully qualified name, its workspace, and the
    configuration the workspace stores for it. *)
Record Stack := { Name : string; Ws : Workspace; Config : gmap string ConfigValue }.

(** [auto.FullyQualifiedStackName(org, project, stack)]. *)
Definition FullyQualifiedStackName (org project stack : string) : string :=
  org ++ "/" ++ project ++ "/" ++ stack.
End auto.

(** A configuration value that is not a secret: [auto.ConfigValue{Value: v}]. *)
Definition plain (v : string) : auto.ConfigValue :=
  {| auto.Value := v; auto.Secret := false |}.

(** ** The archive and file system calls of [PushScenario] *)

Module zip.
(** An entry of a ZIP archive: its name, whether its mode marks a
    directory, and what reading it gives: [Err] when [Open] fails, else
    the bytes copied and the error [io.Copy] ends with, if any. *)
Record File := {
  Name : string;
  IsDir : bool;
  Body : result (string * option error)
}.
End zip.

(** The calls that change the file system, in the order they are made. *)
Inductive FsCall : Type :=
| MkdirTemp (created : string)
| MkdirAll (path : string)
| OpenFile (path : string)
| Copy (path : string) (data : string)
| RemoveAll (path : string).

(** ** The collaborators *)

(** What the world outside the repository answers. A deadline is [Some d]
    when the call runs under [context.WithTimeout(ctx, d)] and [None] when
    it runs under the caller's context; the [context.Err] next to an
    answer is what the context of the call reports once it returned. The
    file system answers may depend on the calls made before.
    [yaml_ProjectName] is [yaml.Unmarshal] into a [workspace.Project]
    followed by [Name.String()]; [auto_UpsertStack] answers with the
    configuration the stack it opened or created holds; [rand_Read] is
    what [rand.Read] of [crypto/rand] leaves in a buffer of eight bytes:
    the call fills the buffer whole and reports no error, and when the
    system's source fails it ends the program and does not return. *)
Record World := {
  Conf : global.Configuration;
  oci_Load : string -> result string;
  os_ReadFile : string -> result string;
  os_UserHomeDir : string;
  yaml_ProjectName : string -> result string;
  json_Marshal_strings : list string -> result string;
  json_Marshal_map : gmap string string -> result string;
  rand_Read : vec Byte.byte 8;
  auto_NewLocalWorkspace : auto.Workspace -> option error;
  auto_UpsertStack : string -> auto.Workspace -> result (gmap string auto.ConfigValue);
  stack_SetAllConfig : auto.Stack -> gmap string auto.ConfigValue -> option error;
  stack_SetConfig : auto.Stack -> string -> auto.ConfigValue -> option error;
  stack_Up : auto.Stack -> option time.Duration -> result auto.UpResult * context.Err;
  stack_Preview : auto.Stack -> option time.Duration -> option error * context.Err;
  stack_Destroy : auto.Stack -> option time.Duration -> option error * context.Err;
  stack_Export : auto.Stack -> result auto.UntypedDeployment;
  os_MkdirTemp : result string;
  zip_NewReader : string -> result (list zip.File);
  os_MkdirAll : list FsCall -> string -> option error;
  os_OpenFile : list FsCall -> string -> option error;
  scenario_EncodeOCI : list FsCall -> string -> string -> option error
}.

(** ** Package [iac] *)

(** How a call that may also stop the program ends: Go's unchecked type
    assertion [v.(T)] panics when [v] is not a [T]. *)
Inductive outcome (A : Type) : Type :=
| Returned (a : A)
| Panicked.
Arguments Returned {A} a.
Arguments Panicked {A}.

Module iac.
Section Adapter.
Variable W : World.

(** [iac.Stack] and [iac.Result]. *)
Record Stack := { pas : auto.Stack }.
Record Result := { sub : auto.UpResult }.

(** [stack.pas.SetAllConfig(ctx, config)]: when the engine accepts the
    call, the given keys are stored over the ones the stack holds. *)
Definition SetAllConfig (stack : Stack) (config : gmap string auto.ConfigValue)
  : result Stack :=
  match stack_SetAllConfig W (pas stack) config with
  | Some err => Err err
  | None =>
      Ok {| pas := {| auto.Name := auto.Name (pas stack);
                      auto.Ws := auto.Ws (pas stack);
                      auto.Config := config ∪ auto.Config (pas stack) |} |}
  end.

(** [stack.pas.SetConfig(ctx, key, val)]. *)
Definition SetConfig (stack : Stack) (key : string) (val : auto.ConfigValue)
  : result Stack :=
  match stack_SetConfig W (pas stack) key val with
  | Some err => Err err
  | None =>
      Ok {| pas := {| auto.Name := auto.Name (pas stack);
                      auto.Ws := auto.Ws (pas stack);
                      auto.Config := <[key := val]> (auto.Config (pas stack)) |} |}
  end.

(** [loadPulumiYml]. *)
Definition loadPulumiYml (dir : string) : result string :=
  match os_ReadFile W (filepath.Join [dir; "Pulumi.yaml"]) with
  | Ok b => Ok b
  | Err _ =>
      match os_ReadFile W (filepath.Join [dir; "Pulumi.yml"]) with
      | Ok b => Ok b
      | Err err => Err err
      end
  end.

(** [LoadStack]. The two [os.MkdirAll] calls on the cache directories,
    whose results the code drops, and the log lines are left out. *)
Definition LoadStack (scenario id : string) : result Stack :=
  dir ← oci_Load W scenario;
  b ← map_err (fun err => ErrScenario (Wrap err "no Pulumi.yaml/Pulumi.yml file"))
        (loadPulumiYml dir);
  name ← map_err (fun err => ErrScenario (Wrap err "invalid Pulumi YAML content"))
        (yaml_ProjectName W b);
  let cacheDir :=
    if String.eqb (global.Cache (Conf W)) ""
    then filepath.Join [os_UserHomeDir W; ".cache"; "chall-manager"]
    else global.Cache (Conf W) in
  let goCache := filepath.Join [cacheDir; "go-build"] in
  let goModCache := filepath.Join [cacheDir; "go-mod"] in
  let envVars : gmap string string :=
    <["GOMODCACHE" := goModCache]>
      (<["GOCACHE" := goCache]>
         (<["CM_PROJECT" := name]> {["PULUMI_CONFIG_PASSPHRASE" := ""]})) in
  let ws := {| auto.WorkDir := dir; auto.EnvVars := envVars |} in
  match auto_NewLocalWorkspace W ws with
  | Some err => Err (ErrInternal (Wrap err "new local workspace"))
  | None =>
      let stackName := auto.FullyQualifiedStackName "organization" name id in
      match auto_UpsertStack W stackName ws with
      | Err err => Err (ErrInternal (Wrap err ("upsert stack " ++ stackName)))
      | Ok config =>
          Ok {| pas := {| auto.Name := stackName; auto.Ws := ws; auto.Config := config |} |}
      end
  end.

(** [NewStack]. *)
Definition NewStack (fschall : fsapi.Challenge) (id : string) : result Stack :=
  stack ← map_err ErrInternal (LoadStack (fsapi.Scenario fschall) id);
  let config : gmap string auto.ConfigValue :=
    <["challenge_id" := plain (fsapi.ID fschall)]> {["identity" := plain id]} in
  config ←
    (if (0 <? Z.of_nat (length (fsapi.ImagePullSecrets fschall)))%Z
     then
       b ← map_err ErrInternal (json_Marshal_strings W (fsapi.ImagePullSecrets fschall));
       Ok (<["image_pull_secrets" := plain b]> config)
     else Ok config);
  map_err ErrInternal (SetAllConfig stack config).

(** The two loops of [Additional]: every entry of [src] is written into
    [cm]. *)
Definition copy_into (src cm : gmap string string) : gmap string string :=
  map_fold (fun k v acc => <[k := v]> acc) cm src.

(** [Additional]. *)
Definition Additional (stack : Stack) (challAdd istAdd : gmap string string)
  : result Stack :=
  let cm := copy_into istAdd (copy_into challAdd ∅) in
  b ← json_Marshal_map W cm;
  SetConfig stack "additional" (plain b).

(** The deadline [Up], [Preview] and [Down] each compute in their first
    lines from [global.Conf.PulumiTimeout]. *)
Definition op_timeout : time.Duration :=
  let timeout := time.mul (global.PulumiTimeout (Conf W)) time.Second in
  if (timeout =? 0)%Z then time.mul 2 time.Minute else timeout.

(** [Stack.Up]. *)
Definition Up (stack : Stack) : result Result :=
  let timeout := op_timeout in
  match stack_Up W (pas stack) (Some timeout) with
  | (Err err, ctxErr) =>
      if context.Err_eqb ctxErr context.DeadlineExceeded
      then Err (ErrInternal
                  (Errorf "pulumi operation timed out after %v: %w"
                     (Some timeout) None (Some err)))
      else Err err
  | (Ok res, _) => Ok {| sub := res |}
  end.

(** [Stack.Preview]; [None] is a nil error. *)
Definition Preview (stack : Stack) : option error :=
  let timeout := op_timeout in
  match stack_Preview W (pas stack) (Some timeout) with
  | (Some err, ctxErr) =>
      if context.Err_eqb ctxErr context.DeadlineExceeded
      then Some (ErrInternal
                   (Errorf "pulumi preview timed out after %v: %w"
                      (Some timeout) None (Some err)))
      else Some err
  | (None, _) => None
  end.

(** [Stack.Down]. *)
Definition Down (stack : Stack) : option error :=
  let timeout := op_timeout in
  match stack_Destroy W (pas stack) (Some timeout) with
  | (Some err, ctxErr) =>
      if context.Err_eqb ctxErr context.DeadlineExceeded
      then Some (ErrInternal
                   (Errorf "pulumi destroy timed out after %v: %w"
                      (Some timeout) None (Some err)))
      else Some err
  | (None, _) => None
  end.

(** The loop of [Export] over the entries of the [flags] output. *)
Fixpoint append_flags (flags : list string) (fs : list any) : result (list string) :=
  match fs with
  | [] => Ok flags
  | f :: rest =>
      match as_string f with
      | None =>
          Err (ErrInternal
                 (Errorf "invalid flag type for %v, should be a string" None (Some f) None))
      | Some s => append_flags (flags ++ [s])%list rest
      end
  end.

(** [Stack.Export]. [Returned (Ok ist')] is a nil error with the
    record as the call leaves it; [Returned (Err e)] is the error [e],
    returned before any field is assigned. In the [flags] branch the
    test [if !ok] follows the [if] statement whose own [ok] it cannot
    see, so it reads the [ok] of the map lookup. *)
Definition Export (stack : Stack) (res : option Result) (ist : fsapi.Instance)
  : outcome (result fsapi.Instance) :=
  match stack_Export W (pas stack) with
  | Err err => Returned (Err (ErrInternal err))
  | Ok udp =>
      match res ≫= (fun r => auto.Outputs (sub r)) with
      | None =>
          Returned (Err (ErrInternal
            (Errorf "stack outputs are nil - stack operation may have failed" None None None)))
      | Some outputs =>
          match outputs !! "connection_info" with
          | None =>
              Returned (Err (ErrInternal
                (Errorf "connection_info output not found in stack outputs" None None None)))
          | Some coninfo =>
              let flags : outcome (list string) :=
                match outputs !! "flag" with
                | Some f =>
                    match as_string (auto.OValue f) with
                    | Some s => Returned ([] ++ [s])%list
                    | None => Panicked
                    end
                | None => Returned []
                end in
              match flags with
              | Panicked => Panicked
              | Returned flags =>
                  let flags : result (list string) :=
                    match outputs !! "flags" with
                    | Some f =>
                        let ok := true in
                        flags ←
                          match as_array (auto.OValue f) with
                          | Some fs => append_flags flags fs
                          | None => Ok flags
                          end;
                        if negb ok
                        then Err (ErrInternal
                               (Errorf "invalid flags type, should be an array" None None None))
                        else Ok flags
                    | None => Ok flags
                    end in
                  match flags with
                  | Err err => Returned (Err err)
                  | Ok flags =>
                      match as_string (auto.OValue coninfo) with
                      | None => Panicked
                      | Some ci =>
                          Returned (Ok
                            {| fsapi.Identity := fsapi.Identity ist;
                               fsapi.ChallengeID := fsapi.ChallengeID ist;
                               fsapi.SourceID := fsapi.SourceID ist;
                               fsapi.Since := fsapi.Since ist;
                               fsapi.LastRenew := fsapi.LastRenew ist;
                               fsapi.Until := fsapi.Until ist;
                               fsapi.ConnectionInfo := ci;
                               fsapi.Flags := flags;
                               fsapi.State := Some (auto.Deployment udp);
                               fsapi.IstAdditional := fsapi.IstAdditional ist |})
                      end
                  end
              end
          end
      end
  end.

(** [randName]: the eight bytes [rand.Read] filled, in hexadecimal. *)
Definition randName : string :=
  hex.EncodeToString (vec_to_list (rand_Read W)).

(** [Validate]; [None] is a nil error. *)
Definition Validate (fschall : fsapi.Challenge) : option error :=
  let rand := randName in
  match LoadStack (fsapi.Scenario fschall) rand with
  | Err err => Some err
  | Ok stack =>
      match SetAllConfig stack {["identity" := plain rand]} with
      | Err err => Some (ErrInternal err)
      | Ok stack =>
          match Additional stack (fsapi.Additional fschall) ∅ with
          | Err err => Some (ErrInternal err)
          | Ok stack =>
              match stack_Preview W (pas stack) None with
              | (Some err, _) => Some (ErrScenario err)
              | (None, _) => None
              end
          end
      end
  end.
End Adapter.
End iac.

(** ** [PushScenario] of the secret manager service *)

Module codes.
(** The gRPC codes [PushScenario] answers with. *)
Inductive Code := InvalidArgument | Internal.
End codes.

Module status.
(** [status.Errorf(code, format, arg)]: the argument is an error or a
    string, when there is one. *)
Record Status := {
  Code : codes.Code;
  Format : string;
  ArgErr : option error;
  ArgStr : option string
}.

Definition Errorf (c : codes.Code) (format : string) : Status :=
  {| Code := c; Format := format; ArgErr := None; ArgStr := None |}.
Definition Errorf_v (c : codes.Code) (format : string) (err : error) : Status :=
  {| Code := c; Format := format; ArgErr := Some err; ArgStr := None |}.
Definition Errorf_s (c : codes.Code) (format : string) (s : string) : Status :=
  {| Code := c; Format := format; ArgErr := None; ArgStr := Some s |}.
End status.

Module challenge.
Record PushScenarioRequest := { ScenarioZip : string; Reference : string }.

Record PushScenarioResponse := {
  Success : bool;
  RespReference : string;
  Message : string
}.

Section SecretManagerService.
Variable W : World.

(** The extraction loop of [PushScenario] over the entries of the
    archive. [tr] holds the file system calls made so far; the loop
    returns the calls made when it ends and the status it ends with,
    [None] when every entry was extracted. *)
Fixpoint extract (tmpDir : string) (files : list zip.File) (tr : list FsCall)
  : list FsCall * option status.Status :=
  match files with
  | [] => (tr, None)
  | file :: rest =>
      let path := filepath.Join [tmpDir; zip.Name file] in
      if negb (strings.HasPrefix path (filepath.Clean tmpDir ++ "/"))
      then (tr, Some (status.Errorf_s codes.InvalidArgument
                        "invalid file path in ZIP: %s" (zip.Name file)))
      else if zip.IsDir file
      then extract tmpDir rest (tr ++ [MkdirAll path])%list
      else
        match os_MkdirAll W tr (filepath.Dir path) with
        | Some err =>
            ((tr ++ [MkdirAll (filepath.Dir path)])%list,
             Some (status.Errorf_v codes.Internal "failed to create directory: %v" err))
        | None =>
            let tr := (tr ++ [MkdirAll (filepath.Dir path)])%list in
            match os_OpenFile W tr path with
            | Some err =>
                ((tr ++ [OpenFile path])%list,
                 Some (status.Errorf_v codes.Internal "failed to create file: %v" err))
            | None =>
                let tr := (tr ++ [OpenFile path])%list in
                match zip.Body file with
                | Err err =>
                    (tr, Some (status.Errorf_v codes.Internal
                                 "failed to open ZIP entry: %v" err))
                | Ok (data, Some err) =>
                    ((tr ++ [Copy path data])%list,
                     Some (status.Errorf_v codes.Internal "failed to extract file: %v" err))
                | Ok (data, None) =>
                    extract tmpDir rest (tr ++ [Copy path data])%list
                end
            end
        end
  end.

(** [PushScenario]: the file system calls it makes, and its answer. The
    deferred [os.RemoveAll(tmpDir)] closes every run that created the
    directory. *)
Definition PushScenario (req : PushScenarioRequest)
  : list FsCall * (PushScenarioResponse + status.Status) :=
  if (Z.of_nat (String.length (ScenarioZip req)) =? 0)%Z
  then ([], inr (status.Errorf codes.InvalidArgument "scenario_zip is required"))
  else if String.eqb (Reference req) ""
  then ([], inr (status.Errorf codes.InvalidArgument "reference is required"))
  else
    let username := global.OCI_Username (Conf W) in
    let password := global.OCI_Password (Conf W) in
    if String.eqb username "" || String.eqb password ""
    then ([], inr (status.Errorf codes.InvalidArgument
                     "OCI registry credentials not configured. Set OCI_USERNAME and OCI_PASSWORD environment variables"))
    else
      match os_MkdirTemp W with
      | Err err =>
          ([], inr (status.Errorf_v codes.Internal "failed to create temp directory: %v" err))
      | Ok tmpDir =>
          let tr := [MkdirTemp tmpDir] in
          match zip_NewReader W (ScenarioZip req) with
          | Err err =>
              ((tr ++ [RemoveAll tmpDir])%list,
               inr (status.Errorf_v codes.InvalidArgument "invalid ZIP archive: %v" err))
          | Ok files =>
              match extract tmpDir files tr with
              | (tr, Some st) => ((tr ++ [RemoveAll tmpDir])%list, inr st)
              | (tr, None) =>
                  match scenario_EncodeOCI W tr (Reference req) tmpDir with
                  | Some err =>
                      ((tr ++ [RemoveAll tmpDir])%list,
                       inr (status.Errorf_v codes.Internal "failed to push scenario: %v" err))
                  | None =>
                      ((tr ++ [RemoveAll tmpDir])%list,
                       inl {| Success := true;
                              RespReference := Reference req;
                              Message := "Successfully pushed scenario to " ++ Reference req |})
                  end
              end
          end
      end.
End SecretManagerService.
End challenge.

(** ** Where a path leads *)

(** One step of path resolution from a directory, given as the list of
    names from the root down: an empty element and [.] stay, [..] moves
    to the parent (the root is its own parent), a name moves below. *)
Definition walk (at_dir : list string) (e : string) : list string :=
  if String.eqb e "" then at_dir
  else if String.eqb e "." then at_dir
  else if String.eqb e ".." then removelast at_dir
  else (at_dir ++ [e])%list.

(** The place an absolute path names. *)
Definition resolve (path : string) : list string :=
  fold_left walk (strings.Split path) [].

(** [path] names [dir] or a place below it. *)
Definition within (dir path : string) : Prop :=
  exists rest, resolve path = (resolve dir ++ rest)%list.

(** [path] names a place strictly below [dir]. *)
Definition below (dir path : string) : Prop :=
  exists rest, rest <> [] /\ resolve path = (resolve dir ++ rest)%list.

(** What a file system call may touch when extraction is confined to
    [dir]: directories are made at [dir] or below, files are opened and
    written strictly below; [dir] itself is made and removed. *)
Definition confined (dir : string) (c : FsCall) : Prop :=
  match c with
  | MkdirTemp p => p = dir
  | MkdirAll p => within dir p
  | OpenFile p => below dir p
  | Copy p _ => below dir p
  | RemoveAll p => p = dir
  end.

(** ** The three engine operations, side by side *)

Inductive Op := OpUp | OpPreview | OpDown.

(** What the engine answers to an operation under a deadline: its error,
    if any, and the state of the context afterwards. *)
Definition engine_answer (W : World) (op : Op) (s : auto.Stack) (d : option time.Duration)
  : option error * context.Err :=
  match op with
  | OpUp =>
      match stack_Up W s d with
      | (Err err, c) => (Some err, c)
      | (Ok _, c) => (None, c)
      end
  | OpPreview => stack_Preview W s d
  | OpDown => stack_Destroy W s d
  end.

(** The error the adapter's operation returns, [None] for a nil error. *)
Definition adapter_error (W : World) (op : Op) (stack : iac.Stack) : option error :=
  match op with
  | OpUp => match iac.Up W stack with Err err => Some err | Ok _ => None end
  | OpPreview => iac.Preview W stack
  | OpDown => iac.Down W stack
  end.

(** The message each operation puts on an expired deadline. *)
Definition timed_out_format (op : Op) : string :=
  match op with
  | OpUp => "pulumi operation timed out after %v: %w"
  | OpPreview => "pulumi preview timed out after %v: %w"
  | OpDown => "pulumi destroy timed out after %v: %w"
  end.

(** What an operation makes of the engine's answer under deadline [t]. *)
Definition after_deadline (op : Op) (t : time.Duration) (a : option error * context.Err)
  : option error :=
  match a with
  | (Some err, c) =>
      if context.Err_eqb c context.DeadlineExceeded
      then Some (ErrInternal (Errorf (timed_out_format op) (Some t) None (Some err)))
      else Some err
  | (None, _) => None
  end.

(** The output map of an [Up] result, [None] when the result or the map
    is nil. *)
Definition outputs_of (res : option iac.Result) : option (gmap string auto.OutputValue) :=
  res ≫= (fun r => auto.Outputs (iac.sub r)).

(** An output of an [Up] result, [None] also when the key is absent. *)
Definition output_of (res : option iac.Result) (key : string) : option auto.OutputValue :=
  outputs ← outputs_of res;
  outputs !! key.

(** The record [ist] with the three fields [Export] assigns replaced. *)
Definition exported (ist : fsapi.Instance) (state : string) (ci : string)
    (flags : list string) : fsapi.Instance :=
  {| fsapi.Identity := fsapi.Identity ist;
     fsapi.ChallengeID := fsapi.ChallengeID ist;
     fsapi.SourceID := fsapi.SourceID ist;
     fsapi.Since := fsapi.Since ist;
     fsapi.LastRenew := fsapi.LastRenew ist;
     fsapi.Until := fsapi.Until ist;
     fsapi.ConnectionInfo := ci;
     fsapi.Flags := flags;
     fsapi.State := Some state;
     fsapi.IstAdditional := fsapi.IstAdditional ist |}.

(** What the [flag] output contributes: nothing when it is absent, its
    value when it is a string; [None] when it is present and not a
    string, where the unchecked assertion stops the program. *)
Definition single_flag (outputs : gmap string auto.OutputValue) : option (list string) :=
  match outputs !! "flag" with
  | None => Some []
  | Some vf => (fun s => [s]) <$> as_string (auto.OValue vf)
  end.

(** What the [flags] output adds to the flags gathered so far: nothing
    when it is absent or is no array, its entries when all are strings,
    an error otherwise. *)
Definition listed_flags (outputs : gmap string auto.OutputValue) (first : list string)
  : result (list string) :=
  match outputs !! "flags" with
  | None => Ok first
  | Some vfs =>
      match as_array (auto.OValue vfs) with
      | None => Ok first
      | Some l => iac.append_flags first l
      end
  end.

(** The error [Export] returns for an entry of [flags] that is not a
    string. *)
Definition invalid_flag (v : any) : error :=
  ErrInternal (Errorf "invalid flag type for %v, should be a string" None (Some v) None).

(** ** Sample worlds *)

Module Sample.
Definition conf : global.Configuration :=
  {| global.Directory := "/var/cm"; global.Cache := ""; global.LogLevel := "info";
     global.PulumiTimeout := 120; global.OCI_Insecure := false;
     global.OCI_Username := "ctf"; global.OCI_Password := "secret" |}.

Definition dquote : ascii := ascii_of_nat 34.

Definition quote (s : string) : string := String dquote (s ++ String dquote "").

Definition commas (l : list string) : string :=
  fold_right (fun s acc => if String.eqb acc "" then s else s ++ "," ++ acc) "" l.

(** A plain encoder for strings that need no escaping. *)
Definition marshal_strings (l : list string) : string :=
  "[" ++ commas (quote <$> l) ++ "]".

Definition marshal_map (m : gmap string string) : string :=
  "{" ++ commas ((fun kv => quote kv.1 ++ ":" ++ quote kv.2) <$> map_to_list m) ++ "}".

Definition outputs : gmap string auto.OutputValue :=
  <["flags" := {| auto.OValue := AArray [AString "FLAG{b}"; AString "FLAG{c}"];
                  auto.OSecret := false |}]>
    (<["flag" := {| auto.OValue := AString "FLAG{a}"; auto.OSecret := false |}]>
       {["connection_info" := {| auto.OValue := AString "nc 127.0.0.1 31000";
                                 auto.OSecret := false |}]}).

Definition up_result : auto.UpResult :=
  {| auto.StdOut := ""; auto.StdErr := ""; auto.Outputs := Some outputs |}.

(** An engine whose operations need [needs] nanoseconds: under a
    shorter deadline they are stopped with an error of the engine. *)
Definition timed {A} (needs : Z) (done stopped : A) (d : option time.Duration)
  : A * context.Err :=
  match d with
  | Some t => if (t <? needs)%Z then (stopped, context.DeadlineExceeded)
              else (done, context.Alive)
  | None => (done, context.Alive)
  end.

Definition killed : error := Raised "signal: killed".

Definition world_with (c : global.Configuration) (needs : Z)
    (read : string -> result string) (up : auto.UpResult) : World :=
  {| Conf := c;
     oci_Load := fun ref => Ok ("/cache/" ++ ref);
     os_ReadFile := read;
     os_UserHomeDir := "/root";
     yaml_ProjectName := fun _ => Ok "demo";
     json_Marshal_strings := fun l => Ok (marshal_strings l);
     json_Marshal_map := fun m => Ok (marshal_map m);
     rand_Read := [# Byte.x00; Byte.x1f; Byte.xa0; Byte.xff;
                     Byte.x07; Byte.xc4; Byte.x9e; Byte.x52];
     auto_NewLocalWorkspace := fun _ => None;
     auto_UpsertStack := fun _ _ => Ok ∅;
     stack_SetAllConfig := fun _ _ => None;
     stack_SetConfig := fun _ _ _ => None;
     stack_Up := fun _ => timed needs (Ok up) (Err killed);
     stack_Preview := fun _ => timed needs None (Some killed);
     stack_Destroy := fun _ => timed needs None (Some killed);
     stack_Export := fun _ => Ok {| auto.Version := 3; auto.Deployment := "{}" |};
     os_MkdirTemp := Ok "/tmp/scenario-push-1";
     zip_NewReader := fun _ =>
       Ok [ {| zip.Name := "Pulumi.yaml"; zip.IsDir := false;
               zip.Body := Ok ("name: demo", None) |};
            {| zip.Name := "../../etc/cron.d/x"; zip.IsDir := false;
               zip.Body := Ok ("* * * * * root id", None) |} ];
     os_MkdirAll := fun _ _ => None;
     os_OpenFile := fun _ _ => None;
     scenario_EncodeOCI := fun _ _ _ => None |}.

Definition read_yaml (p : string) : result string :=
  if String.eqb p "/cache/demo/Pulumi.yaml" then Ok "name: demo"
  else Err (Raised "no such file or directory").

Definition read_nothing (p : string) : result string :=
  Err (Raised "no such file or directory").

(** Operations take a second. *)
Definition world : World := world_with conf time.Second read_yaml up_result.

(** Operations take three minutes. *)
Definition slow_world : World :=
  world_with conf (time.mul 3 time.Minute) read_yaml up_result.

(** Operations take three minutes and [PulumiTimeout] is 0. *)
Definition zero_world : World :=
  world_with
    {| global.Directory := "/var/cm"; global.Cache := ""; global.LogLevel := "info";
       global.PulumiTimeout := 0; global.OCI_Insecure := false;
       global.OCI_Username := "ctf"; global.OCI_Password := "secret" |}
    (time.mul 3 time.Minute) read_yaml up_result.

(** The scenario directory holds no project descriptor. *)
Definition bare_world : World := world_with conf time.Second read_nothing up_result.

Definition chall : fsapi.Challenge :=
  {| fsapi.ID := "c1"; fsapi.Scenario := "demo"; fsapi.Hash := "";
     fsapi.ChallUntil := None; fsapi.Timeout := None; fsapi.Min := 0; fsapi.Max := 0;
     fsapi.Additional := <["k" := "chall"]> {["size" := "small"]};
     fsapi.ImagePullSecrets := [] |}.

Definition chall_secrets : fsapi.Challenge :=
  {| fsapi.ID := "c1"; fsapi.Scenario := "demo"; fsapi.Hash := "";
     fsapi.ChallUntil := None; fsapi.Timeout := None; fsapi.Min := 0; fsapi.Max := 0;
     fsapi.Additional := <["k" := "chall"]> {["size" := "small"]};
     fsapi.ImagePullSecrets := ["regcred"] |}.

Definition ist : fsapi.Instance :=
  {| fsapi.Identity := "id1"; fsapi.ChallengeID := "c1"; fsapi.SourceID := "u1";
     fsapi.Since := 100; fsapi.LastRenew := 100; fsapi.Until := Some 160;
     fsapi.ConnectionInfo := ""; fsapi.Flags := []; fsapi.State := None;
     fsapi.IstAdditional := {["k" := "ist"]} |}.

Definition stack : iac.Stack :=
  {| iac.pas := {| auto.Name := "organization/demo/id1";
                   auto.Ws := {| auto.WorkDir := "/cache/demo"; auto.EnvVars := ∅ |};
                   auto.Config := ∅ |} |}.

Definition req : challenge.PushScenarioRequest :=
  {| challenge.ScenarioZip := "PK"; challenge.Reference := "registry.local/demo:v1" |}.

Definition result_of (outs : gmap string auto.OutputValue) : option iac.Result :=
  Some {| iac.sub := {| auto.StdOut := ""; auto.StdErr := "";
                        auto.Outputs := Some outs |} |}.
End Sample.


(** ** Path elements *)

(** [s] holds a separator. *)
Fixpoint has_sep (s : string) : bool :=
  match s with
  | EmptyString => false
  | String c s' => Ascii.eqb c "/" || has_sep s'
  end.

(** [e] is a name: an element that is not empty, not [.], not [..] and
    holds no separator. *)
Definition is_name (e : string) : bool :=
  negb (String.eqb e "") && negb (String.eqb e ".") && negb (String.eqb e "..")
  && negb (has_sep e).

(** The elements, each followed by a separator. *)
Fixpoint with_seps (elems : list string) : string :=
  match elems with
  | [] => EmptyString
  | e :: rest => e ++ "/" ++ with_seps rest
  end.

(** No call on the file system fails and every entry of [files] reads to
    its end. *)
Definition io_faultless (W : World) (files : list zip.File) : Prop :=
  (forall tr p, os_MkdirAll W tr p = None) /\
  (forall tr p, os_OpenFile W tr p = None) /\
  Forall (fun f => exists data, zip.Body f = Ok (data, None)) files.

(** The status of the loop for an entry that fails its test. *)
Definition invalid_path (name : string) : status.Status :=
  status.Errorf_s codes.InvalidArgument "invalid file path in ZIP: %s" name.

(** ** The project descriptor of a directory *)

(** [b] is the project descriptor the directory [dir] holds: the content
    of its [Pulumi.yaml], or of its [Pulumi.yml] when there is no
    [Pulumi.yaml] to read. This is said of the files of the world, apart
    from the code that reads them. *)
Definition descriptor (W : World) (dir b : string) : Prop :=
  os_ReadFile W (filepath.Join [dir; "Pulumi.yaml"]) = Ok b \/
  ((exists e, os_ReadFile W (filepath.Join [dir; "Pulumi.yaml"]) = Err e) /\
   os_ReadFile W (filepath.Join [dir; "Pulumi.yml"]) = Ok b).

(** The project descriptor of [dir] declares the project name [P]. *)
Definition declares (W : World) (dir P : string) : Prop :=
  exists b, descriptor W dir b /\ yaml_ProjectName W b = Ok P.

(** ** Reading hexadecimal back *)

(** The value of a lower-case hexadecimal digit. *)
Definition hex_value (c : ascii) : option nat :=
  let n := nat_of_ascii c in
  if (48 <=? n)%nat && (n <=? 57)%nat then Some (n - 48)%nat
  else if (97 <=? n)%nat && (n <=? 102)%nat then Some (n - 87)%nat
  else None.

(** The bytes a string of lower-case hexadecimal digits stands for. *)
Fixpoint hex_decode (s : string) : option (list Byte.byte) :=
  match s with
  | EmptyString => Some []
  | String hi (String lo rest) =>
      h ← hex_value hi;
      l ← hex_value lo;
      b ← Byte.of_nat (16 * h + l);
      tl ← hex_decode rest;
      Some (b :: tl)
  | String _ EmptyString => None
  end.

(** ** The calls of a finished extraction *)

(** The calls the loop makes for an entry it extracts. *)
Definition entry_calls (tmpDir : string) (file : zip.File) : list FsCall :=
  let path := filepath.Join [tmpDir; zip.Name file] in
  if zip.IsDir file then [MkdirAll path]
  else
    match zip.Body file with
    | Ok (data, _) => [MkdirAll (filepath.Dir path); OpenFile path; Copy path data]
    | Err _ => [MkdirAll (filepath.Dir path); OpenFile path]
    end.

(** The entry passes the test of the loop and, when it is a file, reads
    to its end. *)
Definition entry_sound (tmpDir : string) (file : zip.File) : Prop :=
  strings.HasPrefix (filepath.Join [tmpDir; zip.Name file])
    (filepath.Clean tmpDir ++ "/") = true /\
  (zip.IsDir file = false -> exists data, zip.Body file = Ok (data, None)).

(** A call of the extraction loop, as opposed to the making and the
    removal of the temporary directory. *)
Definition is_entry_call (c : FsCall) : bool :=
  match c with
  | MkdirAll _ | OpenFile _ | Copy _ _ => true
  | MkdirTemp _ | RemoveAll _ => false
  end.

(** The world [W] with another archive behind every request. *)
Definition with_archive (W : World) (files : list zip.File) : World :=
  {| Conf := Conf W;
     oci_Load := oci_Load W;
     os_ReadFile := os_ReadFile W;
     os_UserHomeDir := os_UserHomeDir W;
     yaml_ProjectName := yaml_ProjectName W;
     json_Marshal_strings := json_Marshal_strings W;
     json_Marshal_map := json_Marshal_map W;
     rand_Read := rand_Read W;
     auto_NewLocalWorkspace := auto_NewLocalWorkspace W;
     auto_UpsertStack := auto_UpsertStack W;
     stack_SetAllConfig := stack_SetAllConfig W;
     stack_SetConfig := stack_SetConfig W;
     stack_Up := stack_Up W;
     stack_Preview := stack_Preview W;
     stack_Destroy := stack_Destroy W;
     stack_Export := stack_Export W;
     os_MkdirTemp := os_MkdirTemp W;
     zip_NewReader := fun _ => Ok files;
     os_MkdirAll := os_MkdirAll W;
     os_OpenFile := os_OpenFile W;
     scenario_EncodeOCI := scenario_EncodeOCI W |}.

(** An archive with a directory and two files below the root of the
    scenario. *)
Definition good_archive : list zip.File :=
  [ {| zip.Name := "Pulumi.yaml"; zip.IsDir := false;
       zip.Body := Ok ("name: demo", None) |};
    {| zip.Name := "src/"; zip.IsDir := true; zip.Body := Ok ("", None) |};
    {| zip.Name := "src/main.go"; zip.IsDir := false;
       zip.Body := Ok ("package main", None) |} ].

(** The answer of a [PushScenario] that went through. *)
Definition pushed (req : challenge.PushScenarioRequest) : challenge.PushScenarioResponse :=
  {| challenge.Success := true;
     challenge.RespReference := challenge.Reference req;
     challenge.Message := "Successfully pushed scenario to " ++ challenge.Reference req |}.

(** ** Import of a stored state *)

Module state.
(** What [Import] needs from outside: [json.Marshal] of the stored state
    and the engine's [Import]. *)
Record Engine := {
  json_Marshal_state : option string -> result string;
  stack_Import : auto.Stack -> auto.UntypedDeployment -> option error
}.

(** [Stack.Import]: the deployments handed to the engine, and the error
    returned, [None] for a nil error. *)
Definition Import (E : Engine) (stack : iac.Stack) (ist : fsapi.Instance)
  : list auto.UntypedDeployment * option error :=
  match json_Marshal_state E (fsapi.State ist) with
  | Err err => ([], Some err)
  | Ok s =>
      let deployment := {| auto.Version := 3; auto.Deployment := s |} in
      ([deployment], stack_Import E (iac.pas stack) deployment)
  end.
End state.

(** ** The secret manager service *)

Module strs.
(** [strings.Contains(s, substr)]. *)
Fixpoint Contains (s substr : string) : bool :=
  strings.HasPrefix s substr ||
  match s with
  | EmptyString => false
  | String _ s' => Contains s' substr
  end.

(** [s] without its first [n] bytes. *)
Fixpoint skip (n : nat) (s : string) : string :=
  match n, s with
  | O, _ => s
  | S n', String _ s' => skip n' s'
  | S _, EmptyString => EmptyString
  end.

(** [strings.Replace(s, old, new, 1)] for a non-empty [old]: the
    leftmost occurrence of [old] is replaced. *)
Fixpoint ReplaceFirst (s old new : string) : string :=
  if strings.HasPrefix s old then new ++ skip (String.length old) s
  else match s with
       | EmptyString => EmptyString
       | String c s' => String c (ReplaceFirst s' old new)
       end.
End strs.

Module kube.
(** [rest.Config], as far as the service reads it. *)
Record Config := { Host : string }.

(** [corev1.Secret], as far as the service builds and reads it. *)
Record Secret := {
  Name : string;
  Namespace : string;
  Type_ : string;
  Labels : gmap string string;
  Data : gmap string string;
  CreationTimestamp : Z
}.

(** The calls made on the cluster, in the order they are made. *)
Inductive Call : Type :=
| List (namespace : string)
| Create (namespace : string) (secret : Secret)
| Delete (namespace name : string).

(** What the cluster, the environment and the libraries answer.
    [range_keys] is the order in which a [range] loop visits the keys of
    a map. *)
Record Cluster := {
  os_Getenv : string -> string;
  os_UserHomeDir : string;
  rest_InClusterConfig : result Config;
  clientcmd_BuildConfigFromFlags : string -> result Config;
  kubernetes_NewForConfig : Config -> option error;
  secrets_List : Config -> string -> result (list Secret);
  secrets_Create : Config -> string -> Secret -> result Secret;
  secrets_Delete : Config -> string -> string -> option error;
  json_Marshal : any -> result string;
  base64_EncodeToString : string -> string;
  range_keys : gmap string string -> list string;
  http_NewRequest : string -> option error;
  http_Do : string -> string -> result Z
}.
End kube.

Module secrets.
(** The [Secret] message of the service. *)
Record Secret := {
  Name : string;
  Type_ : string;
  Namespace : string;
  CreatedAt : Z;
  DataKeys : list string;
  UsedByChallenges : list string
}.

Record CreateDockerRegistrySecretRequest := {
  DName : string; DNamespace : string; DServer : string;
  DUsername : string; DPassword : string; DEmail : string
}.

Record CreateGenericSecretRequest := {
  GName : string; GNamespace : string; GData : gmap string string
}.

Record CreateTLSSecretRequest := {
  TName : string; TNamespace : string; TCert : string; TKey : string
}.

Record DeleteSecretRequest := { XName : string; XNamespace : string }.

Record TestRegistryConnectionRequest := {
  RServer : string; RUsername : string; RPassword : string
}.

(** A formatted message with its argument. *)
Record Text := {
  Format : string;
  ArgErr : option error;
  ArgStr : option string;
  ArgInt : option Z
}.

Record TestRegistryConnectionResponse := {
  Success : bool;
  Message : Text;
  Authenticated : bool
}.

Section Service.
Variable K : kube.Cluster.

(** [getKubernetesClient]: the configuration the client set is made for. *)
Definition getKubernetesClient : result kube.Config :=
  config ←
    match kube.rest_InClusterConfig K with
    | Ok config => Ok config
    | Err _ =>
        let kubeconfig := kube.os_Getenv K "KUBECONFIG" in
        let kubeconfig :=
          if String.eqb kubeconfig "" then kube.os_UserHomeDir K ++ "/.kube/config"
          else kubeconfig in
        match kube.clientcmd_BuildConfigFromFlags K kubeconfig with
        | Ok config => Ok config
        | Err err =>
            Err (errs.Errorf "failed to create kubernetes config: %w" None None (Some err))
        end
    end;
  let config :=
    if strs.Contains (kube.Host config) "://0.0.0.0:"
    then {| kube.Host := strs.ReplaceFirst (kube.Host config) "://0.0.0.0:" "://127.0.0.1:" |}
    else config in
  match kube.kubernetes_NewForConfig K config with
  | Some err =>
      Err (errs.Errorf "failed to create kubernetes client: %w" None None (Some err))
  | None => Ok config
  end.

(** [getNamespace]. *)
Definition getNamespace (reqNamespace : string) : string :=
  if negb (String.eqb reqNamespace "") then reqNamespace
  else
    let namespace := kube.os_Getenv K "KUBERNETES_TARGET_NAMESPACE" in
    if negb (String.eqb namespace "") then namespace
    else "chall-manager".

(** The labels of a secret of the given kind. *)
Definition managed_labels (kind : string) : gmap string string :=
  <["chall-manager.ctfer.io/secret-type" := kind]>
    {["app.kubernetes.io/managed-by" := "chall-manager"]}.

(** The message the service answers with for a secret of the cluster. *)
Definition describe (s : kube.Secret) (dataKeys : list string) : Secret :=
  {| Name := kube.Name s; Type_ := kube.Type_ s; Namespace := kube.Namespace s;
     CreatedAt := kube.CreationTimestamp s; DataKeys := dataKeys;
     UsedByChallenges := [] |}.

(** A text with its argument, as [fmt.Sprintf] is given them. *)
Definition text_v (format : string) (err : error) : Text :=
  {| Format := format; ArgErr := Some err; ArgStr := None; ArgInt := None |}.
Definition text_s (format : string) (s : string) : Text :=
  {| Format := format; ArgErr := None; ArgStr := Some s; ArgInt := None |}.
Definition text_d (format : string) (n : Z) : Text :=
  {| Format := format; ArgErr := None; ArgStr := None; ArgInt := Some n |}.

(** [ListSecrets]: the calls made on the cluster, and the answer. *)
Definition ListSecrets (reqNamespace : string)
  : list kube.Call * (list Secret + status.Status) :=
  let namespace := getNamespace reqNamespace in
  match getKubernetesClient with
  | Err err =>
      ([], inr (status.Errorf_v codes.Internal "failed to get kubernetes client: %v" err))
  | Ok k8sClient =>
      match kube.secrets_List K k8sClient namespace with
      | Err err =>
          ([kube.List namespace],
           inr (status.Errorf_v codes.Internal "failed to list secrets: %v" err))
      | Ok items =>
          ([kube.List namespace],
           inl (map (fun secret => describe secret (kube.range_keys K (kube.Data secret)))
                  items))
      end
  end.

(** [CreateDockerRegistrySecret]. *)
Definition CreateDockerRegistrySecret (req : CreateDockerRegistrySecretRequest)
  : list kube.Call * (Secret + status.Status) :=
  if String.eqb (DName req) "" || String.eqb (DServer req) ""
     || String.eqb (DUsername req) "" || String.eqb (DPassword req) ""
  then ([], inr (status.Errorf codes.InvalidArgument
                   "name, server, username, and password are required"))
  else
    let namespace := getNamespace (DNamespace req) in
    match getKubernetesClient with
    | Err err =>
        ([], inr (status.Errorf_v codes.Internal "failed to get kubernetes client: %v" err))
    | Ok k8sClient =>
        let auth :=
          kube.base64_EncodeToString K (DUsername req ++ ":" ++ DPassword req) in
        let dockerConfig :=
          AMap [("auths",
                 AMap [(DServer req,
                        AMap [("username", AString (DUsername req));
                              ("password", AString (DPassword req));
                              ("email", AString (DEmail req));
                              ("auth", AString auth)])])] in
        match kube.json_Marshal K dockerConfig with
        | Err err =>
            ([], inr (status.Errorf_v codes.Internal
                        "failed to marshal docker config: %v" err))
        | Ok dockerConfigJSON =>
            let secret :=
              {| kube.Name := DName req;
                 kube.Namespace := namespace;
                 kube.Labels := managed_labels "docker-registry";
                 kube.Type_ := "kubernetes.io/dockerconfigjson";
                 kube.Data := {[".dockerconfigjson" := dockerConfigJSON]};
                 kube.CreationTimestamp := 0 |} in
            match kube.secrets_Create K k8sClient namespace secret with
            | Err err =>
                ([kube.Create namespace secret],
                 inr (status.Errorf_v codes.Internal "failed to create secret: %v" err))
            | Ok createdSecret =>
                ([kube.Create namespace secret],
                 inl (describe createdSecret [".dockerconfigjson"]))
            end
        end
    end.

(** [CreateGenericSecret]. *)
Definition CreateGenericSecret (req : CreateGenericSecretRequest)
  : list kube.Call * (Secret + status.Status) :=
  if String.eqb (GName req) ""
  then ([], inr (status.Errorf codes.InvalidArgument "name is required"))
  else if (Z.of_nat (size (GData req)) =? 0)%Z
  then ([], inr (status.Errorf codes.InvalidArgument "data is required"))
  else
    let namespace := getNamespace (GNamespace req) in
    match getKubernetesClient with
    | Err err =>
        ([], inr (status.Errorf_v codes.Internal "failed to get kubernetes client: %v" err))
    | Ok k8sClient =>
        let data := iac.copy_into (GData req) ∅ in
        let dataKeys := kube.range_keys K (GData req) in
        let secret :=
          {| kube.Name := GName req;
             kube.Namespace := namespace;
             kube.Labels := managed_labels "generic";
             kube.Type_ := "Opaque";
             kube.Data := data;
             kube.CreationTimestamp := 0 |} in
        match kube.secrets_Create K k8sClient namespace secret with
        | Err err =>
            ([kube.Create namespace secret],
             inr (status.Errorf_v codes.Internal "failed to create secret: %v" err))
        | Ok createdSecret =>
            ([kube.Create namespace secret], inl (describe createdSecret dataKeys))
        end
    end.

(** [CreateTLSSecret]. *)
Definition CreateTLSSecret (req : CreateTLSSecretRequest)
  : list kube.Call * (Secret + status.Status) :=
  if String.eqb (TName req) "" || String.eqb (TCert req) "" || String.eqb (TKey req) ""
  then ([], inr (status.Errorf codes.InvalidArgument "name, cert, and key are required"))
  else
    let namespace := getNamespace (TNamespace req) in
    match getKubernetesClient with
    | Err err =>
        ([], inr (status.Errorf_v codes.Internal "failed to get kubernetes client: %v" err))
    | Ok k8sClient =>
        let secret :=
          {| kube.Name := TName req;
             kube.Namespace := namespace;
             kube.Labels := managed_labels "tls";
             kube.Type_ := "kubernetes.io/tls";
             kube.Data := <["tls.key" := TKey req]> {["tls.crt" := TCert req]};
             kube.CreationTimestamp := 0 |} in
        match kube.secrets_Create K k8sClient namespace secret with
        | Err err =>
            ([kube.Create namespace secret],
             inr (status.Errorf_v codes.Internal "failed to create secret: %v" err))
        | Ok createdSecret =>
            ([kube.Create namespace secret],
             inl (describe createdSecret ["tls.crt"; "tls.key"]))
        end
    end.

(** [DeleteSecret]. *)
Definition DeleteSecret (req : DeleteSecretRequest)
  : list kube.Call * (unit + status.Status) :=
  if String.eqb (XName req) ""
  then ([], inr (status.Errorf codes.InvalidArgument "name is required"))
  else
    let namespace := getNamespace (XNamespace req) in
    match getKubernetesClient with
    | Err err =>
        ([], inr (status.Errorf_v codes.Internal "failed to get kubernetes client: %v" err))
    | Ok k8sClient =>
        match kube.secrets_Delete K k8sClient namespace (XName req) with
        | Some err =>
            ([kube.Delete namespace (XName req)],
             inr (status.Errorf_v codes.Internal "failed to delete secret: %v" err))
        | None => ([kube.Delete namespace (XName req)], inl tt)
        end
    end.

(** [TestRegistryConnection]. *)
Definition TestRegistryConnection (req : TestRegistryConnectionRequest)
  : TestRegistryConnectionResponse + status.Status :=
  if String.eqb (RServer req) "" || String.eqb (RUsername req) ""
     || String.eqb (RPassword req) ""
  then inr (status.Errorf codes.InvalidArgument
              "server, username, and password are required")
  else
    let url := "https://" ++ RServer req ++ "/v2/" in
    match kube.http_NewRequest K url with
    | Some err =>
        inl {| Success := false;
               Message := text_v "Failed to create request: %v" err;
               Authenticated := false |}
    | None =>
        let auth :=
          kube.base64_EncodeToString K (RUsername req ++ ":" ++ RPassword req) in
        match kube.http_Do K url ("Basic " ++ auth) with
        | Err err =>
            inl {| Success := false;
                   Message := text_v "Failed to connect to registry: %v" err;
                   Authenticated := false |}
        | Ok statusCode =>
            if (statusCode =? 200)%Z || (statusCode =? 401)%Z
            then inl {| Success := true;
                        Message := text_s "Successfully connected to %s" (RServer req);
                        Authenticated := (statusCode =? 200)%Z |}
            else inl {| Success := true;
                        Message := text_d "Connected to registry but received status %d"
                                     statusCode;
                        Authenticated := false |}
        end
    end.
End Service.
End secrets.

(** A sample cluster: no in-cluster configuration, a kubeconfig of a
    [kind] cluster, every call accepted. *)
Definition sample_cluster : kube.Cluster :=
  {| kube.os_Getenv := fun _ => "";
     kube.os_UserHomeDir := "/root";
     kube.rest_InClusterConfig := Err (Raised "not in cluster");
     kube.clientcmd_BuildConfigFromFlags := fun _ => Ok {| kube.Host := "https://0.0.0.0:6443" |};
     kube.kubernetes_NewForConfig := fun _ => None;
     kube.secrets_List := fun _ _ => Ok [];
     kube.secrets_Create := fun _ _ s => Ok s;
     kube.secrets_Delete := fun _ _ _ => None;
     kube.json_Marshal := fun _ => Ok "{}";
     kube.base64_EncodeToString := fun s => s;
     kube.range_keys := fun m => (map_to_list m).*1;
     kube.http_NewRequest := fun _ => None;
     kube.http_Do := fun _ _ => Ok 401%Z |}.


(** The configuration [CreateDockerRegistrySecret] encodes. *)
Definition docker_config (K : kube.Cluster) (req : secrets.CreateDockerRegistrySecretRequest)
  : any :=
  AMap [("auths",
         AMap [(secrets.DServer req,
                AMap [("username", AString (secrets.DUsername req));
                      ("password", AString (secrets.DPassword req));
                      ("email", AString (secrets.DEmail req));
                      ("auth", AString (kube.base64_EncodeToString K
                                 (secrets.DUsername req ++ ":" ++ secrets.DPassword req)))])])].

Definition sample_generic : secrets.CreateGenericSecretRequest :=
  {| secrets.GName := "api-token"; secrets.GNamespace := "";
     secrets.GData := <["token" := "s3cr3t"]> {["user" := "ctf"]} |}.

Definition sample_tls : secrets.CreateTLSSecretRequest :=
  {| secrets.TName := "web-tls"; secrets.TNamespace := "ctf";
     secrets.TCert := "CERT"; secrets.TKey := "KEY" |}.

(** The address [TestRegistryConnection] asks and the header it sends. *)
Definition registry_url (req : secrets.TestRegistryConnectionRequest) : string :=
  "https://" ++ secrets.RServer req ++ "/v2/".

Definition registry_auth (K : kube.Cluster) (req : secrets.TestRegistryConnectionRequest)
  : string :=
  "Basic " ++ kube.base64_EncodeToString K (secrets.RUsername req ++ ":" ++ secrets.RPassword req).

(** The registry answered the request with [code]. *)
Definition registry_answered (K : kube.Cluster) (req : secrets.TestRegistryConnectionRequest)
    (code : Z) : Prop :=
  kube.http_NewRequest K (registry_url req) = None /\
  kube.http_Do K (registry_url req) (registry_auth K req) = Ok code.

Definition sample_registry : secrets.TestRegistryConnectionRequest :=
  {| secrets.RServer := "registry.local"; secrets.RUsername := "ctf";
     secrets.RPassword := "secret" |}.

(** The kubeconfig file read outside a cluster. *)
Definition kubeconfig_path (K : kube.Cluster) : string :=
  if String.eqb (kube.os_Getenv K "KUBECONFIG") "" then kube.os_UserHomeDir K ++ "/.kube/config"
  else kube.os_Getenv K "KUBECONFIG".

(** ** Division of resource quantities (package [kubernetes] of the SDK) *)

Module strconv.
(** The value of a decimal digit, [None] for any other byte. *)
Definition digit_value (ch : ascii) : option Z :=
  let n := nat_of_ascii ch in
  if (48 <=? n)%nat && (n <=? 57)%nat then Some (Z.of_nat (n - 48)) else None.

(** The loop of [Atoi] over the digits, from the value read so far. *)
Fixpoint digits (s : string) (n : Z) : option Z :=
  match s with
  | EmptyString => Some n
  | String ch s' =>
      match digit_value ch with
      | Some d => digits s' (n * 10 + d)
      | None => None
      end
  end.

(** [strconv.Atoi] on a 64-bit platform, [None] for an error: an optional
    sign, then one decimal digit or more, of a value that fits an
    [int64]. *)
Definition Atoi (s : string) : option Z :=
  match s with
  | EmptyString => None
  | String c rest =>
      let signed := Ascii.eqb c "-" || Ascii.eqb c "+" in
      let body := if signed then rest else s in
      if String.eqb body "" then None
      else
        match digits body 0 with
        | None => None
        | Some n =>
            let n := if Ascii.eqb c "-" then (- n)%Z else n in
            if ((- 2 ^ 63 <=? n) && (n <? 2 ^ 63))%Z then Some n else None
        end
  end.

(** The decimal digit of a value below ten. *)
Definition digit_char (d : Z) : ascii := ascii_of_nat (48 + Z.to_nat d).

(** The decimal writing of [n], most significant digit first, before
    [acc]; [fuel] bounds the number of digits. *)
Fixpoint utoa (fuel : nat) (n : Z) (acc : string) : string :=
  match fuel with
  | O => acc
  | S fuel' =>
      let acc' := String (digit_char (n mod 10)) acc in
      if (n <? 10)%Z then acc' else utoa fuel' (n / 10) acc'
  end.

(** [strconv.Itoa] of an [int64]. *)
Definition Itoa (i : Z) : string :=
  if (i <? 0)%Z then String "-" (utoa 20 (- i) "") else utoa 20 i "".
End strconv.

Module kubernetes.
(** The first [n] bytes of [s]. *)
Fixpoint keep (n : nat) (s : string) : string :=
  match n, s with
  | S n', String c s' => String c (keep n' s')
  | _, _ => EmptyString
  end.

(** [len(resource) > len(suffix) && resource[len(resource)-len(suffix):] == suffix]. *)
Definition has_suffix (resource suffix : string) : bool :=
  (String.length suffix <? String.length resource)%nat &&
  String.eqb (strs.skip (String.length resource - String.length suffix) resource) suffix.

(** [resource[:len(resource)-k]]. *)
Definition trim (resource : string) (k : nat) : string :=
  keep (String.length resource - k) resource.

(** The quotient of the two machine integers, and at least one. *)
Definition scaled (val divisor : Z) : Z :=
  let result := Z.quot val divisor in
  if (result <? 1)%Z then 1%Z else result.

Definition suffixes : list string := ["Ei"; "Pi"; "Ti"; "Gi"; "Mi"; "Ki"].

(** The loop of [divideResource] over the memory suffixes: the divided
    quantity for the first suffix the resource ends with and whose front
    part is an integer, [None] when the loop ends without one. *)
Fixpoint divide_memory (resource : string) (divisor : Z) (sufs : list string)
  : option string :=
  match sufs with
  | [] => None
  | suffix :: rest =>
      if has_suffix resource suffix then
        match strconv.Atoi (trim resource (String.length suffix)) with
        | Some val => Some (strconv.Itoa (scaled val divisor) ++ suffix)
        | None => divide_memory resource divisor rest
        end
      else divide_memory resource divisor rest
  end.

(** [divideResource]. *)
Definition divideResource (resource : string) (divisor : Z) : string :=
  if String.eqb resource "" || (divisor <=? 0)%Z then resource
  else
    match (if has_suffix resource "m" then strconv.Atoi (trim resource 1) else None) with
    | Some val => strconv.Itoa (scaled val divisor) ++ "m"
    | None =>
        match divide_memory resource divisor suffixes with
        | Some divided => divided
        | None =>
            match strconv.Atoi resource with
            | Some val =>
                let millicores := scaled (wrap64 (val * 1000)) divisor in
                strconv.Itoa millicores ++ "m"
            | None => resource
            end
        end
    end.
End kubernetes.

(** [s] holds a decimal point. *)
Fixpoint has_dot (s : string) : bool :=
  match s with
  | EmptyString => false
  | String c s' => Ascii.eqb c "." || has_dot s'
  end.

(** Every byte of [s] is a decimal digit or a minus sign. *)
Fixpoint numeric (s : string) : bool :=
  match s with
  | EmptyString => true
  | String c s' =>
      (Ascii.eqb c "-" || match strconv.digit_value c with Some _ => true | None => false end)
      && numeric s'
  end.

(** * Properties *)

(** ** Deadlines of the engine operations *)

Lemma adapter_error_unfold (W : World) (op : Op) (stack : iac.Stack) :
  adapter_error W op stack =
  after_deadline op (iac.op_timeout W)
    (engine_answer W op (iac.pas stack) (Some (iac.op_timeout W))).
Proof.
  destruct op; cbn [adapter_error engine_answer after_deadline timed_out_format].
  - unfold iac.Up. destruct (stack_Up W _ _) as [[res | err] c]; cbn.
    + reflexivity.
    + destruct (context.Err_eqb c context.DeadlineExceeded); reflexivity.
  - unfold iac.Preview. destruct (stack_Preview W _ _) as [[err |] c]; cbn; [|reflexivity].
    destruct (context.Err_eqb c context.DeadlineExceeded); reflexivity.
  - unfold iac.Down. destruct (stack_Destroy W _ _) as [[err |] c]; cbn; [|reflexivity].
    destruct (context.Err_eqb c context.DeadlineExceeded); reflexivity.
Qed.

(** C1, as the code has it: when the deadline of [Up], [Preview] or
    [Down] has expired and the engine reported an error, the operation
    returns an [ErrInternal] (kind Internal, not DeadlineExceeded) whose
    cause is a timed-out message that names the deadline and wraps the
    engine's error. *)
Theorem deadline_expiry_is_internal (W : World) (op : Op) (stack : iac.Stack) (e : error) :
  engine_answer W op (iac.pas stack) (Some (iac.op_timeout W))
    = (Some e, context.DeadlineExceeded) ->
  exists err,
    adapter_error W op stack = Some err /\
    err = ErrInternal
            (Errorf (timed_out_format op) (Some (iac.op_timeout W)) None (Some e)) /\
    errs.kind err = errs.Internal /\
    errs.wraps 2 err e.
Proof.
  intros Hanswer. eexists. rewrite adapter_error_unfold, Hanswer. cbn.
  split; [reflexivity|]. split; [reflexivity|]. split; [reflexivity|].
  right. cbn. right. cbn. left. reflexivity.
Qed.

Lemma deadline_expiry_is_internal_witness :
  exists err,
    adapter_error Sample.slow_world OpDown Sample.stack = Some err /\
    err = ErrInternal
            (Errorf (timed_out_format OpDown) (Some (iac.op_timeout Sample.slow_world))
               None (Some Sample.killed)) /\
    errs.kind err = errs.Internal /\
    errs.wraps 2 err Sample.killed.
Proof.
  apply (deadline_expiry_is_internal Sample.slow_world OpDown Sample.stack Sample.killed).
  reflexivity.
Defined.

(** C1 as stated fails: the deadline of [Up] expires on an engine that
    needs three minutes, and the error returned is not of kind
    DeadlineExceeded. *)
Lemma deadline_expiry_kind_counterexample :
  engine_answer Sample.slow_world OpUp (iac.pas Sample.stack)
    (Some (iac.op_timeout Sample.slow_world)) = (Some Sample.killed, context.DeadlineExceeded) /\
  exists err,
    iac.Up Sample.slow_world Sample.stack = Err err /\
    errs.kind err <> errs.DeadlineExceeded.
Proof.
  split; [reflexivity|]. eexists. split; [reflexivity|]. discriminate.
Qed.

(** C2 against the code: with [PulumiTimeout] set to 0 the deadline of
    [Up], [Preview] and [Down] is two minutes, and the engine is called
    under it, not without one. *)
Theorem zero_timeout_is_two_minutes (W : World) :
  global.PulumiTimeout (Conf W) = 0%Z ->
  iac.op_timeout W = 120000000000%Z /\
  forall op stack,
    adapter_error W op stack =
    after_deadline op 120000000000
      (engine_answer W op (iac.pas stack) (Some 120000000000%Z)).
Proof.
  intros Hzero.
  assert (Ht : iac.op_timeout W = 120000000000%Z).
  { unfold iac.op_timeout. rewrite Hzero. reflexivity. }
  split; [exact Ht|]. intros op stack. rewrite adapter_error_unfold, Ht. reflexivity.
Qed.

Lemma zero_timeout_is_two_minutes_witness :
  iac.op_timeout Sample.zero_world = 120000000000%Z /\
  forall op stack,
    adapter_error Sample.zero_world op stack =
    after_deadline op 120000000000
      (engine_answer Sample.zero_world op (iac.pas stack) (Some 120000000000%Z)).
Proof.
  apply (zero_timeout_is_two_minutes Sample.zero_world). reflexivity.
Defined.

(** With [PulumiTimeout] 0, an [Up] that needs three minutes is stopped
    after two. *)
Example zero_timeout_up_expires :
  iac.Up Sample.zero_world Sample.stack =
  Err (ErrInternal (Errorf "pulumi operation timed out after %v: %w"
                      (Some 120000000000%Z) None (Some Sample.killed))).
Proof. reflexivity. Qed.

(** ** Export *)

Lemma append_flags_strings (fs acc : list string) :
  iac.append_flags acc (AString <$> fs) = Ok (acc ++ fs)%list.
Proof.
  revert acc. induction fs as [|f fs IH]; intros acc; cbn.
  - rewrite app_nil_r. reflexivity.
  - rewrite IH, <- app_assoc. reflexivity.
Qed.

(** The loop either takes every entry, all strings, or stops at an entry
    that is not a string. *)
Lemma append_flags_cases (l : list any) (acc : list string) :
  (exists fs, l = AString <$> fs /\ iac.append_flags acc l = Ok (acc ++ fs)%list) \/
  (exists v, v ∈ l /\ as_string v = None /\ iac.append_flags acc l = Err (invalid_flag v)).
Proof.
  revert acc. induction l as [|v l IH]; intros acc.
  - left. exists []. cbn. rewrite app_nil_r. split; reflexivity.
  - cbn [iac.append_flags]. destruct (as_string v) as [s|] eqn:Hv.
    + destruct v; try discriminate. cbn in Hv. injection Hv as ->.
      destruct (IH (acc ++ [s])%list) as [(fs & -> & Hfs) | (w & Hin & Hw & Hfs)].
      * left. exists (s :: fs). split; [reflexivity|].
        rewrite Hfs, <- app_assoc. reflexivity.
      * right. exists w. split; [right; exact Hin|]. split; [exact Hw|exact Hfs].
    + right. exists v. split; [left|]. split; [exact Hv|reflexivity].
Qed.

(** A nil error comes only from a run that passed every check, and the
    record it leaves is the given one with three fields replaced. *)
Lemma export_ok_inv (W : World) (stack : iac.Stack) (res : option iac.Result)
    (ist ist' : fsapi.Instance) :
  iac.Export W stack res ist = Returned (Ok ist') ->
  exists udp outputs coninfo ci flags,
    stack_Export W (iac.pas stack) = Ok udp /\
    outputs_of res = Some outputs /\
    outputs !! "connection_info" = Some coninfo /\
    auto.OValue coninfo = AString ci /\
    ist' = exported ist (auto.Deployment udp) ci flags.
Proof.
  unfold iac.Export. fold (outputs_of res).
  destruct (stack_Export W (iac.pas stack)) as [udp|] eqn:Hudp; [|discriminate].
  destruct (outputs_of res) as [outputs|] eqn:Hout; [|discriminate].
  destruct (outputs !! "connection_info") as [coninfo|] eqn:Hci; [|discriminate].
  destruct (outputs !! "flag") as [f|].
  - destruct (as_string (auto.OValue f)); [|discriminate].
    destruct (outputs !! "flags") as [fl|]; cbn.
    + match goal with |- context [mbind _ ?m] => destruct m as [flags|] end;
        cbn; [|discriminate].
      destruct (auto.OValue coninfo) eqn:Hv; cbn; try discriminate.
      intros [= <-]. eauto 10.
    + destruct (auto.OValue coninfo) eqn:Hv; cbn; try discriminate.
      intros [= <-]. eauto 10.
  - destruct (outputs !! "flags") as [fl|]; cbn.
    + match goal with |- context [mbind _ ?m] => destruct m as [flags|] end;
        cbn; [|discriminate].
      destruct (auto.OValue coninfo) eqn:Hv; cbn; try discriminate.
      intros [= <-]. eauto 10.
    + destruct (auto.OValue coninfo) eqn:Hv; cbn; try discriminate.
      intros [= <-]. eauto 10.
Qed.

(** [Export] once the deployment was exported, [connection_info] is
    present and [flag] is absent or a string: the [flags] output is read,
    and then [connection_info]. *)
Lemma export_run (W : World) (stack : iac.Stack) (res : option iac.Result)
    (ist : fsapi.Instance) udp outputs coninfo first :
  stack_Export W (iac.pas stack) = Ok udp ->
  outputs_of res = Some outputs ->
  outputs !! "connection_info" = Some coninfo ->
  single_flag outputs = Some first ->
  iac.Export W stack res ist =
  match listed_flags outputs first with
  | Err err => Returned (Err err)
  | Ok flags =>
      match as_string (auto.OValue coninfo) with
      | None => Panicked
      | Some ci => Returned (Ok (exported ist (auto.Deployment udp) ci flags))
      end
  end.
Proof.
  intros Hudp Hout Hci Hfirst. unfold iac.Export, listed_flags. fold (outputs_of res).
  rewrite Hudp, Hout, Hci. unfold single_flag in Hfirst.
  destruct (outputs !! "flag") as [vf|].
  - destruct (as_string (auto.OValue vf)) as [s|]; [|discriminate].
    cbn in Hfirst. injection Hfirst as <-. cbn.
    destruct (outputs !! "flags") as [vfs|]; [|reflexivity].
    destruct (as_array (auto.OValue vfs)) as [l|]; cbn; [|reflexivity].
    destruct (iac.append_flags [s] l); reflexivity.
  - injection Hfirst as <-. cbn.
    destruct (outputs !! "flags") as [vfs|]; [|reflexivity].
    destruct (as_array (auto.OValue vfs)) as [l|]; cbn; [|reflexivity].
    destruct (iac.append_flags [] l); reflexivity.
Qed.

(** C3: on an [Up] result with a [connection_info] output, [Export]
    accepts [flag] alone, [flags] alone, or both; with both the flags of
    the record are the single flag followed by the entries of [flags] in
    their order; and an entry of [flags] that is not a string makes it
    return the invalid-flag error for such an entry. *)
Theorem export_flags (W : World) (stack : iac.Stack) (res : option iac.Result)
    (ist : fsapi.Instance) udp outputs coninfo :
  stack_Export W (iac.pas stack) = Ok udp ->
  outputs_of res = Some outputs ->
  outputs !! "connection_info" = Some coninfo ->
  (forall ci vf f,
     auto.OValue coninfo = AString ci ->
     outputs !! "flag" = Some vf -> auto.OValue vf = AString f ->
     outputs !! "flags" = None ->
     exists ist', iac.Export W stack res ist = Returned (Ok ist') /\
                  fsapi.Flags ist' = [f]) /\
  (forall ci vfs fs,
     auto.OValue coninfo = AString ci ->
     outputs !! "flag" = None ->
     outputs !! "flags" = Some vfs -> auto.OValue vfs = AArray (AString <$> fs) ->
     exists ist', iac.Export W stack res ist = Returned (Ok ist') /\
                  fsapi.Flags ist' = fs) /\
  (forall ci vf f vfs fs,
     auto.OValue coninfo = AString ci ->
     outputs !! "flag" = Some vf -> auto.OValue vf = AString f ->
     outputs !! "flags" = Some vfs -> auto.OValue vfs = AArray (AString <$> fs) ->
     exists ist', iac.Export W stack res ist = Returned (Ok ist') /\
                  fsapi.Flags ist' = f :: fs) /\
  (forall first vfs l,
     single_flag outputs = Some first ->
     outputs !! "flags" = Some vfs -> auto.OValue vfs = AArray l ->
     (exists v, v ∈ l /\ as_string v = None) ->
     exists v, v ∈ l /\ as_string v = None /\
               iac.Export W stack res ist = Returned (Err (invalid_flag v))).
Proof.
  intros Hudp Hout Hci.
  pose proof (fun first => export_run W stack res ist udp outputs coninfo first
                             Hudp Hout Hci) as Hrun.
  repeat split.
  - intros ci vf f Hv Hf Hfv Hnone. eexists. split.
    + rewrite (Hrun [f]); [|unfold single_flag; rewrite Hf, Hfv; reflexivity].
      unfold listed_flags. rewrite Hnone, Hv. reflexivity.
    + reflexivity.
  - intros ci vfs fs Hv Hnone Hfs Hfsv. eexists. split.
    + rewrite (Hrun []); [|unfold single_flag; rewrite Hnone; reflexivity].
      unfold listed_flags. rewrite Hfs, Hfsv. cbn [as_array].
      rewrite append_flags_strings, Hv. reflexivity.
    + reflexivity.
  - intros ci vf f vfs fs Hv Hf Hfv Hfs Hfsv. eexists. split.
    + rewrite (Hrun [f]); [|unfold single_flag; rewrite Hf, Hfv; reflexivity].
      unfold listed_flags. rewrite Hfs, Hfsv. cbn [as_array].
      rewrite append_flags_strings, Hv. reflexivity.
    + reflexivity.
  - intros first vfs l Hfirst Hfs Hfsv (w & Hw & Hwv).
    destruct (append_flags_cases l first) as [(fs & -> & _) | (v & Hin & Hbad & Hloop)].
    + apply list_elem_of_fmap in Hw as (s & -> & _). discriminate.
    + exists v. split; [exact Hin|]. split; [exact Hbad|].
      rewrite (Hrun first Hfirst). unfold listed_flags.
      rewrite Hfs, Hfsv. cbn [as_array]. rewrite Hloop. reflexivity.
Qed.

Lemma export_flags_witness :
  exists ist',
    iac.Export Sample.world Sample.stack (Sample.result_of Sample.outputs) Sample.ist
      = Returned (Ok ist') /\
    fsapi.Flags ist' = ["FLAG{a}"; "FLAG{b}"; "FLAG{c}"].
Proof.
  refine (proj1 (proj2 (proj2
    (export_flags Sample.world Sample.stack (Sample.result_of Sample.outputs) Sample.ist
       {| auto.Version := 3; auto.Deployment := "{}" |} Sample.outputs
       {| auto.OValue := AString "nc 127.0.0.1 31000"; auto.OSecret := false |}
       _ _ _)))
    "nc 127.0.0.1 31000"
    {| auto.OValue := AString "FLAG{a}"; auto.OSecret := false |} "FLAG{a}"
    {| auto.OValue := AArray [AString "FLAG{b}"; AString "FLAG{c}"]; auto.OSecret := false |}
    ["FLAG{b}"; "FLAG{c}"] _ _ _ _ _); reflexivity.
Defined.

(** A [flags] output that holds a number next to a string is refused, and
    one that is no array at all is passed over. *)
Example export_flags_examples :
  iac.Export Sample.world Sample.stack
    (Sample.result_of
       (<["flags" := {| auto.OValue := AArray [AString "FLAG{b}"; ANumber 7];
                        auto.OSecret := false |}]> Sample.outputs)) Sample.ist
    = Returned (Err (invalid_flag (ANumber 7))) /\
  exists ist',
    iac.Export Sample.world Sample.stack
      (Sample.result_of
         (<["flags" := {| auto.OValue := AString "FLAG{b}"; auto.OSecret := false |}]>
            Sample.outputs)) Sample.ist = Returned (Ok ist') /\
    fsapi.Flags ist' = ["FLAG{a}"].
Proof. split; [reflexivity|]. eexists. split; reflexivity. Qed.

(** C7: [Export] returns an error whenever the outputs hold no
    [connection_info]; when it returns without error, the entry is
    present and the record's connection information is exactly its string
    value; and it does return without error, with that value in the
    record, when the deployment is exported, the entry is a string and
    the flag outputs are well formed. *)
Theorem export_connection_info (W : World) (stack : iac.Stack) (res : option iac.Result)
    (ist : fsapi.Instance) :
  (output_of res "connection_info" = None ->
   exists e, iac.Export W stack res ist = Returned (Err (ErrInternal e))) /\
  (forall ist',
     iac.Export W stack res ist = Returned (Ok ist') ->
     exists coninfo,
       output_of res "connection_info" = Some coninfo /\
       auto.OValue coninfo = AString (fsapi.ConnectionInfo ist')) /\
  (forall udp outputs coninfo ci first flags,
     stack_Export W (iac.pas stack) = Ok udp ->
     outputs_of res = Some outputs ->
     outputs !! "connection_info" = Some coninfo ->
     auto.OValue coninfo = AString ci ->
     single_flag outputs = Some first ->
     listed_flags outputs first = Ok flags ->
     exists ist',
       iac.Export W stack res ist = Returned (Ok ist') /\
       fsapi.ConnectionInfo ist' = ci).
Proof.
  split; [|split].
  3:{ intros udp outputs coninfo ci first flags Hudp Hout Hci Hv Hfirst Hflags.
      exists (exported ist (auto.Deployment udp) ci flags). split; [|reflexivity].
      rewrite (export_run W stack res ist udp outputs coninfo first Hudp Hout Hci Hfirst).
      rewrite Hflags, Hv. reflexivity. }
  - unfold output_of, iac.Export. fold (outputs_of res). intros Hnone.
    destruct (stack_Export W (iac.pas stack)); [|eauto].
    destruct (outputs_of res) as [outputs|]; [|eauto].
    cbn in Hnone. rewrite Hnone. eauto.
  - intros ist' Hok.
    apply export_ok_inv in Hok as (udp & outputs & coninfo & ci & flags
                                    & _ & Hout & Hci & Hv & ->).
    exists coninfo. unfold output_of. rewrite Hout. cbn. split; [exact Hci|exact Hv].
Qed.

Lemma export_connection_info_witness :
  (exists e, iac.Export Sample.world Sample.stack
               (Sample.result_of (delete "connection_info" Sample.outputs)) Sample.ist
             = Returned (Err (ErrInternal e))) /\
  (exists coninfo,
     output_of (Sample.result_of Sample.outputs) "connection_info" = Some coninfo /\
     auto.OValue coninfo = AString "nc 127.0.0.1 31000").
Proof.
  split.
  - apply (proj1 (export_connection_info Sample.world Sample.stack
                    (Sample.result_of (delete "connection_info" Sample.outputs))
                    Sample.ist)).
    reflexivity.
  - apply (proj1 (proj2 (export_connection_info Sample.world Sample.stack
                           (Sample.result_of Sample.outputs) Sample.ist))
             (exported Sample.ist "{}" "nc 127.0.0.1 31000"
                ["FLAG{a}"; "FLAG{b}"; "FLAG{c}"])).
    reflexivity.
Defined.

(** C9: when [Export] returns without error, the record it leaves differs
    from the one it was given in [State], [ConnectionInfo] and [Flags]
    only. *)
Theorem export_frame (W : World) (stack : iac.Stack) (res : option iac.Result)
    (ist ist' : fsapi.Instance) :
  iac.Export W stack res ist = Returned (Ok ist') ->
  fsapi.Identity ist' = fsapi.Identity ist /\
  fsapi.ChallengeID ist' = fsapi.ChallengeID ist /\
  fsapi.SourceID ist' = fsapi.SourceID ist /\
  fsapi.Since ist' = fsapi.Since ist /\
  fsapi.LastRenew ist' = fsapi.LastRenew ist /\
  fsapi.Until ist' = fsapi.Until ist /\
  fsapi.IstAdditional ist' = fsapi.IstAdditional ist.
Proof.
  intros Hok.
  apply export_ok_inv in Hok as (udp & outputs & coninfo & ci & flags & _ & _ & _ & _ & ->).
  repeat split.
Qed.

Lemma export_frame_witness :
  fsapi.Identity (exported Sample.ist "{}" "nc 127.0.0.1 31000" ["FLAG{a}"; "FLAG{b}"; "FLAG{c}"])
    = "id1" /\
  iac.Export Sample.world Sample.stack (Sample.result_of Sample.outputs) Sample.ist
    = Returned (Ok (exported Sample.ist "{}" "nc 127.0.0.1 31000"
                      ["FLAG{a}"; "FLAG{b}"; "FLAG{c}"])).
Proof.
  split.
  - apply (export_frame Sample.world Sample.stack (Sample.result_of Sample.outputs)
             Sample.ist
             (exported Sample.ist "{}" "nc 127.0.0.1 31000"
                ["FLAG{a}"; "FLAG{b}"; "FLAG{c}"])).
    reflexivity.
  - reflexivity.
Defined.

(** ** Stack configuration *)

(** Writing every entry of [src] into [cm] gives the union in which [src]
    wins. *)
Lemma copy_into_union (src cm : gmap string string) :
  iac.copy_into src cm = src ∪ cm.
Proof.
  unfold iac.copy_into.
  apply (map_fold_weak_ind (fun r m => r = m ∪ cm)).
  - symmetry. apply (left_id_L ∅ (∪)).
  - intros k v m r _ ->. apply insert_union_l.
Qed.

Lemma merged_additional (challAdd istAdd : gmap string string) :
  iac.copy_into istAdd (iac.copy_into challAdd ∅) = istAdd ∪ challAdd.
Proof.
  rewrite !copy_into_union. f_equal. apply (right_id_L ∅ (∪)).
Qed.

Lemma set_config_ok_inv (W : World) (stack stack' : iac.Stack) key val :
  iac.SetConfig W stack key val = Ok stack' ->
  stack_SetConfig W (iac.pas stack) key val = None /\
  auto.Name (iac.pas stack') = auto.Name (iac.pas stack) /\
  auto.Ws (iac.pas stack') = auto.Ws (iac.pas stack) /\
  auto.Config (iac.pas stack') = <[key := val]> (auto.Config (iac.pas stack)).
Proof.
  unfold iac.SetConfig. destruct (stack_SetConfig W _ _ _); [discriminate|].
  intros [= <-]. repeat split.
Qed.

Lemma set_all_config_ok_inv (W : World) (stack stack' : iac.Stack) config :
  iac.SetAllConfig W stack config = Ok stack' ->
  stack_SetAllConfig W (iac.pas stack) config = None /\
  auto.Name (iac.pas stack') = auto.Name (iac.pas stack) /\
  auto.Ws (iac.pas stack') = auto.Ws (iac.pas stack) /\
  auto.Config (iac.pas stack') = config ∪ auto.Config (iac.pas stack).
Proof.
  unfold iac.SetAllConfig. destruct (stack_SetAllConfig W _ _); [discriminate|].
  intros [= <-]. repeat split.
Qed.

Lemma additional_ok_inv (W : World) (stack stack' : iac.Stack)
    (challAdd istAdd : gmap string string) :
  iac.Additional W stack challAdd istAdd = Ok stack' ->
  exists b,
    json_Marshal_map W (istAdd ∪ challAdd) = Ok b /\
    auto.Name (iac.pas stack') = auto.Name (iac.pas stack) /\
    auto.Ws (iac.pas stack') = auto.Ws (iac.pas stack) /\
    auto.Config (iac.pas stack') =
      <["additional" := plain b]> (auto.Config (iac.pas stack)).
Proof.
  unfold iac.Additional. rewrite merged_additional.
  destruct (json_Marshal_map W (istAdd ∪ challAdd)) as [b|]; cbn; [|discriminate].
  intros Hset. apply set_config_ok_inv in Hset as (_ & Hname & Hws & Hcfg). eauto.
Qed.

(** C4: the value [Additional] sets under [additional] is the JSON
    encoding of a map whose keys are those of the challenge-level and of
    the instance-level map together, and in which a key of the
    instance-level map keeps the instance-level value. *)
Theorem additional_merges (W : World) (stack : iac.Stack)
    (challAdd istAdd : gmap string string) :
  exists cm : gmap string string,
    dom cm = dom challAdd ∪ dom istAdd /\
    (forall k v, istAdd !! k = Some v -> cm !! k = Some v) /\
    (forall k, istAdd !! k = None -> cm !! k = challAdd !! k) /\
    (forall b,
       json_Marshal_map W cm = Ok b ->
       stack_SetConfig W (iac.pas stack) "additional" (plain b) = None ->
       exists stack', iac.Additional W stack challAdd istAdd = Ok stack') /\
    (forall stack',
       iac.Additional W stack challAdd istAdd = Ok stack' ->
       exists b,
         json_Marshal_map W cm = Ok b /\
         auto.Config (iac.pas stack') !! "additional" = Some (plain b)).
Proof.
  exists (istAdd ∪ challAdd). repeat split.
  - rewrite dom_union_L. apply (comm_L (∪)).
  - intros k v Hk. apply lookup_union_Some_l. exact Hk.
  - intros k Hk. apply lookup_union_r. exact Hk.
  - intros b Hb Hset. unfold iac.Additional, iac.SetConfig.
    rewrite merged_additional, Hb. cbn. rewrite Hset. eauto.
  - intros stack' Hok.
    apply additional_ok_inv in Hok as (b & Hb & _ & _ & Hcfg).
    exists b. split; [exact Hb|]. rewrite Hcfg. apply lookup_insert_eq.
Qed.

(** The sample challenge asks for [k] and [size], the sample instance
    overrides [k]. *)
Example additional_merges_example :
  exists stack',
    iac.Additional Sample.world Sample.stack
      (fsapi.Additional Sample.chall) (fsapi.IstAdditional Sample.ist) = Ok stack' /\
    auto.Config (iac.pas stack') !! "additional"
      = Some (plain (Sample.marshal_map (<["k" := "ist"]> {["size" := "small"]}))).
Proof. eexists. split; [reflexivity|]. vm_compute. reflexivity. Qed.

(** ** Loading a stack *)

(** The workspace [LoadStack] asks for: the scenario directory and the
    environment of the engine. *)
Lemma load_stack_unfold (W : World) (scenario id dir b name : string) :
  oci_Load W scenario = Ok dir ->
  iac.loadPulumiYml W dir = Ok b ->
  yaml_ProjectName W b = Ok name ->
  exists ws,
    auto.WorkDir ws = dir /\
    auto.EnvVars ws !! "CM_PROJECT" = Some name /\
    iac.LoadStack W scenario id =
    match auto_NewLocalWorkspace W ws with
    | Some err => Err (ErrInternal (Wrap err "new local workspace"))
    | None =>
        let stackName := auto.FullyQualifiedStackName "organization" name id in
        match auto_UpsertStack W stackName ws with
        | Err err => Err (ErrInternal (Wrap err ("upsert stack " ++ stackName)))
        | Ok config =>
            Ok {| iac.pas := {| auto.Name := stackName; auto.Ws := ws;
                                auto.Config := config |} |}
        end
    end.
Proof.
  intros Hdir Hb Hname. unfold iac.LoadStack. rewrite Hdir. cbn. rewrite Hb. cbn.
  rewrite Hname. cbn. eexists. split; [|split; [|reflexivity]]; [reflexivity|].
  cbn. rewrite lookup_insert_ne by discriminate. rewrite lookup_insert_ne by discriminate.
  apply lookup_insert_eq.
Qed.

Lemma load_stack_ok_inv (W : World) (scenario id : string) (stack : iac.Stack) :
  iac.LoadStack W scenario id = Ok stack ->
  exists dir b name,
    oci_Load W scenario = Ok dir /\
    iac.loadPulumiYml W dir = Ok b /\
    yaml_ProjectName W b = Ok name /\
    auto.Name (iac.pas stack) = auto.FullyQualifiedStackName "organization" name id /\
    auto.WorkDir (auto.Ws (iac.pas stack)) = dir /\
    auto_NewLocalWorkspace W (auto.Ws (iac.pas stack)) = None /\
    auto_UpsertStack W (auto.Name (iac.pas stack)) (auto.Ws (iac.pas stack))
      = Ok (auto.Config (iac.pas stack)).
Proof.
  intros Hok.
  destruct (oci_Load W scenario) as [dir|] eqn:Hdir;
    [|unfold iac.LoadStack in Hok; rewrite Hdir in Hok; discriminate].
  destruct (iac.loadPulumiYml W dir) as [b|] eqn:Hb;
    [|unfold iac.LoadStack in Hok; rewrite Hdir in Hok; cbn in Hok;
      rewrite Hb in Hok; discriminate].
  destruct (yaml_ProjectName W b) as [name|] eqn:Hname;
    [|unfold iac.LoadStack in Hok; rewrite Hdir in Hok; cbn in Hok;
      rewrite Hb in Hok; cbn in Hok; rewrite Hname in Hok; discriminate].
  destruct (load_stack_unfold W scenario id dir b name Hdir Hb Hname)
    as (ws & Hwd & _ & Heq).
  rewrite Heq in Hok. exists dir, b, name.
  destruct (auto_NewLocalWorkspace W ws) eqn:Hws; [discriminate|].
  cbn in Hok.
  destruct (auto_UpsertStack W _ ws) as [config|] eqn:Hup; [|discriminate].
  injection Hok as <-. cbn. repeat split; assumption.
Qed.

(** What [LoadStack] reads is the project descriptor of the directory. *)
Lemma descriptor_read (W : World) (dir b : string) :
  descriptor W dir b -> iac.loadPulumiYml W dir = Ok b.
Proof.
  unfold iac.loadPulumiYml. intros [H | [[e He] H]].
  - rewrite H. reflexivity.
  - rewrite He, H. reflexivity.
Qed.

(** C8: for a scenario directory whose project descriptor (the
    [Pulumi.yaml] of the directory, or its [Pulumi.yml] when there is no
    [Pulumi.yaml] to read) declares the name [P], a stack [LoadStack]
    returns for the identity [id] is the one upserted under the name
    made of [organization], [P] and [id]; and [LoadStack] returns it
    whenever the workspace is created and the engine opens or creates a
    stack of that name. *)
Theorem load_stack_name (W : World) (scenario id dir P : string) :
  oci_Load W scenario = Ok dir ->
  declares W dir P ->
  (forall stack,
     iac.LoadStack W scenario id = Ok stack ->
     auto.Name (iac.pas stack) = auto.FullyQualifiedStackName "organization" P id /\
     auto.Name (iac.pas stack) = "organization/" ++ P ++ "/" ++ id /\
     auto.WorkDir (auto.Ws (iac.pas stack)) = dir /\
     auto_UpsertStack W (auto.FullyQualifiedStackName "organization" P id)
       (auto.Ws (iac.pas stack)) = Ok (auto.Config (iac.pas stack))) /\
  (exists ws,
     auto.WorkDir ws = dir /\
     forall config,
       auto_NewLocalWorkspace W ws = None ->
       auto_UpsertStack W (auto.FullyQualifiedStackName "organization" P id) ws
         = Ok config ->
       iac.LoadStack W scenario id =
       Ok {| iac.pas := {| auto.Name := auto.FullyQualifiedStackName "organization" P id;
                           auto.Ws := ws; auto.Config := config |} |}).
Proof.
  intros Hdir (b & Hb & HP). apply descriptor_read in Hb. split.
  - intros stack Hok.
    apply load_stack_ok_inv in Hok as (dir' & b' & P' & Hdir' & Hb' & HP' & Hn & Hwd & _ & Hup).
    rewrite Hdir in Hdir'. injection Hdir' as <-.
    rewrite Hb in Hb'. injection Hb' as <-.
    rewrite HP in HP'. injection HP' as <-.
    rewrite <- Hn. repeat split; [exact Hn|exact Hwd|exact Hup].
  - destruct (load_stack_unfold W scenario id dir b P Hdir Hb HP) as (ws & Hwd & _ & Heq).
    exists ws. split; [exact Hwd|]. intros config Hws Hup.
    rewrite Heq, Hws. cbn. rewrite Hup. reflexivity.
Qed.

Lemma load_stack_name_witness :
  exists stack,
    iac.LoadStack Sample.world "demo" "id1" = Ok stack /\
    auto.Name (iac.pas stack) = "organization/demo/id1".
Proof.
  eexists. split; [reflexivity|].
  apply (proj1 (load_stack_name Sample.world "demo" "id1" "/cache/demo" "demo" eq_refl
                  (ex_intro _ "name: demo" (conj (or_introl eq_refl) eq_refl)))).
  reflexivity.
Defined.

(** ** The configuration a scenario runs with *)

(** The keys [NewStack] passes to [SetAllConfig]. *)
Lemma new_stack_ok_inv (W : World) (fschall : fsapi.Challenge) (id : string)
    (stack : iac.Stack) :
  iac.NewStack W fschall id = Ok stack ->
  exists stack0 config,
    iac.LoadStack W (fsapi.Scenario fschall) id = Ok stack0 /\
    iac.SetAllConfig W stack0 config = Ok stack /\
    config !! "identity" = Some (plain id) /\
    config !! "challenge_id" = Some (plain (fsapi.ID fschall)) /\
    match fsapi.ImagePullSecrets fschall with
    | [] => config !! "image_pull_secrets" = None
    | _ => exists b,
        json_Marshal_strings W (fsapi.ImagePullSecrets fschall) = Ok b /\
        config !! "image_pull_secrets" = Some (plain b)
    end.
Proof.
  unfold iac.NewStack.
  destruct (iac.LoadStack W (fsapi.Scenario fschall) id) as [stack0|]; [|discriminate].
  cbn. destruct (fsapi.ImagePullSecrets fschall) as [|s ips] eqn:Hips.
  - change (0 <? Z.of_nat (length (@nil string)))%Z with false. cbn.
    destruct (iac.SetAllConfig W stack0 _) as [stack'|] eqn:Hall; [|discriminate].
    cbn. intros Hset.
    injection Hset as <-. do 2 eexists. split; [reflexivity|]. split; [exact Hall|].
    repeat split.
  - replace (0 <? Z.of_nat (length (s :: ips)))%Z with true
      by (symmetry; apply Z.ltb_lt; cbn; lia).
    destruct (json_Marshal_strings W (s :: ips)) as [b|] eqn:Hb; [|discriminate].
    cbn.
    destruct (iac.SetAllConfig W stack0 _) as [stack'|] eqn:Hall; [|discriminate].
    cbn. intros Hset.
    injection Hset as <-. do 2 eexists. split; [reflexivity|]. split; [exact Hall|].
    repeat split. exists b. split; [reflexivity|]. apply lookup_insert_eq.
Qed.

(** C5, as the code has it: after [NewStack] and [Additional] the stack
    holds [identity], [challenge_id] and [additional] (the encoding of the
    merged map); it holds [image_pull_secrets] (the encoding of the list)
    when the list of the challenge is not empty, and when the list is
    empty that key is left as the upserted stack had it. *)
Theorem scenario_configuration (W : World) (fschall : fsapi.Challenge) (id : string)
    (istAdd : gmap string string) (stack1 stack2 : iac.Stack) :
  iac.NewStack W fschall id = Ok stack1 ->
  iac.Additional W stack1 (fsapi.Additional fschall) istAdd = Ok stack2 ->
  auto.Config (iac.pas stack2) !! "identity" = Some (plain id) /\
  auto.Config (iac.pas stack2) !! "challenge_id" = Some (plain (fsapi.ID fschall)) /\
  (exists b,
     json_Marshal_map W (istAdd ∪ fsapi.Additional fschall) = Ok b /\
     auto.Config (iac.pas stack2) !! "additional" = Some (plain b)) /\
  (fsapi.ImagePullSecrets fschall <> [] ->
   exists b,
     json_Marshal_strings W (fsapi.ImagePullSecrets fschall) = Ok b /\
     auto.Config (iac.pas stack2) !! "image_pull_secrets" = Some (plain b)) /\
  (fsapi.ImagePullSecrets fschall = [] ->
   exists config0,
     auto_UpsertStack W (auto.Name (iac.pas stack2)) (auto.Ws (iac.pas stack2))
       = Ok config0 /\
     auto.Config (iac.pas stack2) !! "image_pull_secrets"
       = config0 !! "image_pull_secrets").
Proof.
  intros Hnew Hadd.
  apply new_stack_ok_inv in Hnew as (stack0 & config & Hload & Hall & Hid & Hch & Hips).
  apply set_all_config_ok_inv in Hall as (_ & Hn1 & Hw1 & Hc1).
  apply additional_ok_inv in Hadd as (b & Hb & Hn2 & Hw2 & Hc2).
  apply load_stack_ok_inv in Hload as (_ & _ & _ & _ & _ & _ & _ & _ & _ & Hup).
  rewrite Hc2, Hc1, Hn2, Hw2, Hn1, Hw1.
  split; [|split; [|split; [|split]]].
  - rewrite lookup_insert_ne by discriminate. apply lookup_union_Some_l, Hid.
  - rewrite lookup_insert_ne by discriminate. apply lookup_union_Some_l, Hch.
  - exists b. split; [exact Hb|apply lookup_insert_eq].
  - intros Hne. destruct (fsapi.ImagePullSecrets fschall); [contradiction|].
    destruct Hips as (bs & Hbs & Hl). exists bs. split; [exact Hbs|].
    rewrite lookup_insert_ne by discriminate. apply lookup_union_Some_l, Hl.
  - intros Hnil. rewrite Hnil in Hips. exists (auto.Config (iac.pas stack0)).
    split; [exact Hup|].
    rewrite lookup_insert_ne by discriminate. apply lookup_union_r, Hips.
Qed.

Lemma scenario_configuration_witness :
  exists stack1 stack2,
    iac.NewStack Sample.world Sample.chall_secrets "id1" = Ok stack1 /\
    iac.Additional Sample.world stack1 (fsapi.Additional Sample.chall_secrets)
      (fsapi.IstAdditional Sample.ist) = Ok stack2 /\
    auto.Config (iac.pas stack2) !! "identity" = Some (plain "id1").
Proof.
  do 2 eexists. split; [reflexivity|]. split; [reflexivity|].
  eapply (scenario_configuration Sample.world Sample.chall_secrets "id1"
            (fsapi.IstAdditional Sample.ist)); reflexivity.
Defined.

(** C5 as stated fails for a challenge without image pull secrets: after
    [NewStack] and [Additional] on a stack that is new, the key
    [image_pull_secrets] is not set. *)
Lemma scenario_configuration_counterexample :
  fsapi.ImagePullSecrets Sample.chall = [] /\
  exists stack1 stack2,
    iac.NewStack Sample.world Sample.chall "id1" = Ok stack1 /\
    iac.Additional Sample.world stack1 (fsapi.Additional Sample.chall)
      (fsapi.IstAdditional Sample.ist) = Ok stack2 /\
    auto.Config (iac.pas stack2) !! "image_pull_secrets" = None.
Proof.
  split; [reflexivity|]. do 2 eexists. split; [reflexivity|]. split; [reflexivity|].
  vm_compute. reflexivity.
Qed.

(** ** Validation of a scenario *)

Lemma hex_length (src : list Byte.byte) :
  String.length (hex.EncodeToString src) = (2 * length src)%nat.
Proof. induction src as [|b src IH]; cbn; [reflexivity|]. rewrite IH. lia. Qed.

Lemma rand_name_length (W : World) : String.length (iac.randName W) = 16%nat.
Proof.
  unfold iac.randName. rewrite hex_length, length_vec_to_list. reflexivity.
Qed.



(** In the sample world every step succeeds, and so does [Validate]. *)
Example validate_sample : iac.Validate Sample.world Sample.chall = None.
Proof. reflexivity. Qed.


(** ** Paths: splitting, joining, cleaning *)

#[local] Arguments String.append !s1 s2 / : simpl nomatch.
#[local] Arguments Ascii.eqb : simpl never.

Example clean_examples :
  filepath.Clean "/tmp//x/../y/./z/" = "/tmp/y/z" /\
  filepath.Clean "a/../../b" = "../b" /\
  filepath.Clean "" = "." /\
  filepath.Clean "/../a/b/../../.." = "/" /\
  filepath.Join ["/tmp/scenario-push-1"; "a/b.txt"] = "/tmp/scenario-push-1/a/b.txt" /\
  filepath.Join ["/tmp/scenario-push-1"; "/etc/passwd"] = "/tmp/scenario-push-1/etc/passwd" /\
  filepath.Join ["/tmp/scenario-push-1"; "../../etc/passwd"] = "/etc/passwd" /\
  filepath.Join ["/tmp/scenario-push-1"; ""] = "/tmp/scenario-push-1" /\
  filepath.Join [""; "a"; ""] = "a" /\
  filepath.Dir "/tmp/scenario-push-1/a/b.txt" = "/tmp/scenario-push-1/a" /\
  filepath.Dir "/a" = "/" /\
  filepath.Dir "a" = ".".
Proof. repeat split. Qed.

(** The separator after the directory matters: a sibling whose name
    starts like the directory does not pass the test. *)
Example sibling_is_refused :
  filepath.Join ["/tmp/scenario-push-1"; "../scenario-push-10/x"]
    = "/tmp/scenario-push-10/x" /\
  strings.HasPrefix "/tmp/scenario-push-10/x" "/tmp/scenario-push-1" = true /\
  strings.HasPrefix "/tmp/scenario-push-10/x"
    (filepath.Clean "/tmp/scenario-push-1" ++ "/") = false.
Proof. repeat split. Qed.

Lemma string_app_nil_r (s : string) : s ++ "" = s.
Proof. induction s as [|c s IH]; cbn; [reflexivity|]. rewrite IH. reflexivity. Qed.

Lemma string_app_assoc (a b c : string) : (a ++ b) ++ c = a ++ (b ++ c).
Proof. induction a as [|x a IH]; cbn; [reflexivity|]. rewrite IH. reflexivity. Qed.

Lemma has_sep_app (a b : string) : has_sep (a ++ b) = has_sep a || has_sep b.
Proof.
  induction a as [|c a IH]; cbn; [reflexivity|]. rewrite IH. apply orb_assoc.
Qed.

Lemma is_name_inv (e : string) :
  is_name e = true -> e <> "" /\ e <> "." /\ e <> ".." /\ has_sep e = false.
Proof.
  unfold is_name. rewrite !andb_true_iff, !negb_true_iff, !String.eqb_neq. tauto.
Qed.

(** The pieces of a split hold no separator. *)
Lemma split_no_sep (s : string) :
  Forall (fun e => has_sep e = false) (strings.Split s).
Proof.
  induction s as [|c s IH]; cbn.
  - repeat constructor.
  - destruct (Ascii.eqb c "/") eqn:Hc.
    + constructor; [reflexivity|exact IH].
    + destruct (strings.Split s) as [|x xs]; [repeat constructor; cbn; rewrite Hc; reflexivity|].
      inversion IH as [|? ? Hx Hxs]; subst. constructor; [|exact Hxs].
      cbn. rewrite Hc, Hx. reflexivity.
Qed.

Lemma split_cons_sep (s : string) : strings.Split (String "/" s) = "" :: strings.Split s.
Proof. reflexivity. Qed.

(** Splitting an element without separator followed by a separator and
    more text. *)
Lemma split_elem_sep (e rest : string) :
  has_sep e = false ->
  strings.Split (e ++ String "/" rest) = e :: strings.Split rest.
Proof.
  induction e as [|c e IH]; cbn; intros He; [reflexivity|].
  apply orb_false_iff in He as [Hc He]. rewrite Hc, (IH He). reflexivity.
Qed.

Lemma split_elem (e : string) : has_sep e = false -> strings.Split e = [e].
Proof.
  induction e as [|c e IH]; cbn; intros He; [reflexivity|].
  apply orb_false_iff in He as [Hc He]. rewrite Hc, (IH He). reflexivity.
Qed.

Lemma split_with_seps (elems : list string) :
  Forall (fun e => has_sep e = false) elems ->
  strings.Split (with_seps elems) = (elems ++ [""])%list.
Proof.
  induction 1 as [|e elems He _ IH]; cbn [with_seps]; [reflexivity|].
  cbn [String.append]. rewrite (split_elem_sep e _ He), IH. reflexivity.
Qed.

Lemma join_cons (e e' : string) (elems : list string) :
  strings.Join (e :: e' :: elems) = e ++ String "/" (strings.Join (e' :: elems)).
Proof. reflexivity. Qed.

Lemma split_join (elems : list string) :
  elems <> [] ->
  Forall (fun e => has_sep e = false) elems ->
  strings.Split (strings.Join elems) = elems.
Proof.
  intros Hne Hall. induction Hall as [|e elems He Hall IH]; [contradiction|].
  destruct elems as [|e' elems].
  - cbn. apply split_elem, He.
  - rewrite join_cons, (split_elem_sep e _ He), IH by discriminate. reflexivity.
Qed.

(** On a rooted path the output of [Clean] holds names only. *)
Lemma clean_elem_names (out : list string) (e : string) :
  Forall (fun x => is_name x = true) out ->
  has_sep e = false ->
  Forall (fun x => is_name x = true) (filepath.clean_elem true out e).
Proof.
  intros Hout He. unfold filepath.clean_elem.
  destruct (String.eqb e "") eqn:H1; [exact Hout|].
  destruct (String.eqb e ".") eqn:H2; [exact Hout|].
  destruct (String.eqb e "..") eqn:H3.
  - destruct out as [|top rest]; [exact Hout|].
    destruct (String.eqb top ".."); [exact Hout|].
    inversion Hout; assumption.
  - constructor; [|exact Hout]. unfold is_name. rewrite H1, H2, H3, He. reflexivity.
Qed.

(** One step of [Clean] on a rooted path is one step of path resolution. *)
Lemma clean_elem_walk (out : list string) (e : string) :
  Forall (fun x => is_name x = true) out ->
  walk (rev out) e = rev (filepath.clean_elem true out e).
Proof.
  intros Hout. unfold walk, filepath.clean_elem.
  destruct (String.eqb e ""); [reflexivity|].
  destruct (String.eqb e "."); [reflexivity|].
  destruct (String.eqb e ".."); [|reflexivity].
  destruct out as [|top rest]; [reflexivity|].
  inversion Hout as [|? ? Htop _]; subst.
  apply is_name_inv in Htop as (_ & _ & Hdd & _).
  apply String.eqb_neq in Hdd. rewrite Hdd. cbn [rev]. apply removelast_last.
Qed.

Lemma clean_fold (elems out : list string) :
  Forall (fun e => has_sep e = false) elems ->
  Forall (fun x => is_name x = true) out ->
  Forall (fun x => is_name x = true) (fold_left (filepath.clean_elem true) elems out) /\
  fold_left walk elems (rev out) = rev (fold_left (filepath.clean_elem true) elems out).
Proof.
  intros Helems. revert out.
  induction Helems as [|e elems He _ IH]; intros out Hout; cbn; [auto|].
  rewrite (clean_elem_walk out e Hout). apply IH, clean_elem_names; assumption.
Qed.

Lemma clean_elems_names (path : string) :
  filepath.is_rooted path = true ->
  Forall (fun x => is_name x = true) (filepath.clean_elems path).
Proof.
  intros Hr. unfold filepath.clean_elems. rewrite Hr.
  apply Forall_rev. apply clean_fold; [apply split_no_sep|constructor].
Qed.

(** An absolute path leads where its cleaned elements say. *)
Lemma resolve_clean_elems (path : string) :
  filepath.is_rooted path = true ->
  resolve path = filepath.clean_elems path.
Proof.
  intros Hr. unfold resolve, filepath.clean_elems. rewrite Hr.
  apply (clean_fold (strings.Split path) []); [apply split_no_sep|constructor].
Qed.

Lemma walk_names (elems acc : list string) :
  Forall (fun x => is_name x = true) elems ->
  fold_left walk elems acc = (acc ++ elems)%list.
Proof.
  intros Hall. revert acc. induction Hall as [|e elems He _ IH]; intros acc; cbn.
  - rewrite app_nil_r. reflexivity.
  - apply is_name_inv in He as (H1 & H2 & H3 & _).
    unfold walk at 2. apply String.eqb_neq in H1, H2, H3. rewrite H1, H2, H3.
    rewrite IH, <- app_assoc. reflexivity.
Qed.

Lemma names_no_sep (elems : list string) :
  Forall (fun x => is_name x = true) elems ->
  Forall (fun e => has_sep e = false) elems.
Proof.
  intros Hall. eapply Forall_impl; [exact Hall|].
  intros e He. apply is_name_inv in He. tauto.
Qed.

(** The text of a cleaned absolute path leads to its elements. *)
Lemma resolve_render (elems : list string) :
  Forall (fun x => is_name x = true) elems ->
  resolve (filepath.render true elems) = elems.
Proof.
  intros Hall. unfold resolve, filepath.render. cbn [String.append].
  rewrite split_cons_sep. cbn [fold_left]. change (walk [] "") with (@nil string).
  destruct elems as [|e elems]; [reflexivity|].
  rewrite split_join by (try discriminate; apply names_no_sep, Hall).
  apply walk_names, Hall.
Qed.

(** Cleaning an absolute path does not change where it leads. *)
Lemma resolve_clean (path : string) :
  filepath.is_rooted path = true ->
  resolve (filepath.Clean path) = resolve path.
Proof.
  intros Hr. unfold filepath.Clean. rewrite Hr, resolve_render.
  - symmetry. apply resolve_clean_elems, Hr.
  - apply clean_elems_names, Hr.
Qed.

(** ** The prefix test *)

Lemma has_prefix_nil (pre : string) :
  pre <> "" -> strings.HasPrefix "" pre = false.
Proof. destruct pre; [contradiction|reflexivity]. Qed.

(** When an element followed by a separator starts a text that begins
    with an element, the two elements are the same and the text goes on
    with a separator. *)
Lemma prefix_elem (t p x y : string) :
  has_sep t = false -> has_sep p = false ->
  (x = "" \/ exists x', x = String "/" x') ->
  strings.HasPrefix (p ++ x) (t ++ String "/" y) = true ->
  t = p /\ exists x', x = String "/" x' /\ strings.HasPrefix x' y = true.
Proof.
  revert p. induction t as [|a t IH]; intros p Ht Hp Hx; cbn.
  - destruct p as [|c p]; cbn.
    + destruct Hx as [-> | (x' & ->)]; cbn; [discriminate|]. eauto.
    + cbn in Hp. apply orb_false_iff in Hp as [Hc _].
      rewrite Ascii.eqb_sym, Hc. discriminate.
  - cbn in Ht. apply orb_false_iff in Ht as [Ha Ht].
    destruct p as [|c p]; cbn.
    + destruct Hx as [-> | (x' & ->)]; cbn; [discriminate|].
      rewrite Ha. discriminate.
    + cbn in Hp. apply orb_false_iff in Hp as [_ Hp].
      destruct (Ascii.eqb a c) eqn:Hac; [|discriminate].
      apply Ascii.eqb_eq in Hac as ->. intros Hpre.
      destruct (IH p Ht Hp Hx Hpre) as (-> & Hrest). split; [reflexivity|exact Hrest].
Qed.

Lemma join_tail (p : string) (P : list string) :
  exists x, strings.Join (p :: P) = p ++ x /\
            ((x = "" /\ P = []) \/ (x = String "/" (strings.Join P) /\ P <> [])).
Proof.
  destruct P as [|p' P].
  - exists "". cbn. rewrite string_app_nil_r. auto.
  - exists (String "/" (strings.Join (p' :: P))). split; [reflexivity|].
    right. split; [reflexivity|discriminate].
Qed.

Lemma prefix_elems (T P : list string) :
  T <> [] ->
  Forall (fun e => has_sep e = false) T ->
  Forall (fun e => has_sep e = false) P ->
  strings.HasPrefix (strings.Join P) (with_seps T) = true ->
  exists rest, rest <> [] /\ P = (T ++ rest)%list.
Proof.
  intros Hne HT. revert P. induction HT as [|t T Ht HT IH]; [contradiction|].
  intros P HP. cbn [with_seps String.append]. destruct P as [|p P].
  - cbn [strings.Join]. rewrite has_prefix_nil; [discriminate|].
    destruct t; discriminate.
  - inversion HP as [|? ? Hp HP']; subst.
    destruct (join_tail p P) as (x & -> & Hx). intros Hpre.
    apply prefix_elem in Hpre as (-> & x' & Hx' & Hpre); [|assumption|assumption|].
    2:{ destruct Hx as [[-> _] | [-> _]]; eauto. }
    destruct Hx as [[-> _] | [-> HPne]]; [discriminate|].
    injection Hx' as <-.
    destruct T as [|t' T].
    + exists P. split; [exact HPne|reflexivity].
    + destruct (IH ltac:(discriminate) P HP' Hpre) as (rest & Hrest & ->).
      exists rest. split; [exact Hrest|reflexivity].
Qed.

Lemma join_with_seps (T : list string) :
  T <> [] -> strings.Join T ++ "/" = with_seps T.
Proof.
  induction T as [|t T IH]; [contradiction|]. intros _. destruct T as [|t' T].
  - reflexivity.
  - rewrite join_cons, string_app_assoc. cbn [String.append with_seps].
    cbn [with_seps] in IH. rewrite IH by discriminate. reflexivity.
Qed.

(** The test of the extraction loop on two cleaned absolute paths: when
    the text of one, followed by a separator, starts the text of the
    other, the elements of the first start those of the second, and the
    second has more. *)
Lemma prefix_test_sound (T P : list string) :
  Forall (fun x => is_name x = true) T ->
  Forall (fun x => is_name x = true) P ->
  strings.HasPrefix (filepath.render true P) (filepath.render true T ++ "/") = true ->
  exists rest, rest <> [] /\ P = (T ++ rest)%list.
Proof.
  intros HT HP. unfold filepath.render. cbn [String.append strings.HasPrefix].
  change (Ascii.eqb "/" "/") with true. cbv iota.
  destruct T as [|t T].
  - cbn. destruct P as [|p P]; cbn; [discriminate|].
    inversion HP as [|? ? Hp _]; subst. apply is_name_inv in Hp as (Hne & _ & _ & Hsep).
    destruct (join_tail p P) as (x & Hj & _). cbn in Hj. rewrite Hj.
    destruct p as [|c p]; [contradiction|]. cbn in *.
    apply orb_false_iff in Hsep as [Hc _]. rewrite Ascii.eqb_sym, Hc. discriminate.
  - rewrite join_with_seps by discriminate.
    apply prefix_elems; [discriminate|apply names_no_sep..]; assumption.
Qed.

(** ** The paths the extraction loop writes to *)

Lemma rooted_inv (path : string) :
  filepath.is_rooted path = true -> exists rest, path = String "/" rest.
Proof.
  destruct path as [|c rest]; [discriminate|]. unfold filepath.is_rooted. cbn.
  destruct (Ascii.eqb "/" c) eqn:Hc; [|discriminate].
  apply Ascii.eqb_eq in Hc as <-. eauto.
Qed.

(** Joining a name to an absolute directory gives a cleaned absolute
    path. *)
Lemma join_rooted (dir name : string) :
  filepath.is_rooted dir = true ->
  exists P,
    Forall (fun x => is_name x = true) P /\
    filepath.Join [dir; name] = filepath.render true P /\
    resolve (filepath.Join [dir; name]) = P.
Proof.
  intros Hr. destruct (rooted_inv dir Hr) as (d & ->).
  exists (filepath.clean_elems (strings.Join [String "/" d; name])).
  assert (Hrj : filepath.is_rooted (strings.Join [String "/" d; name]) = true) by reflexivity.
  assert (Hj : filepath.Join [String "/" d; name]
               = filepath.render true
                   (filepath.clean_elems (strings.Join [String "/" d; name]))).
  { cbn [filepath.Join]. change (String.eqb (String "/" d) "") with false. cbv iota.
    unfold filepath.Clean. rewrite Hrj. reflexivity. }
  split; [apply clean_elems_names, Hrj|]. split; [exact Hj|].
  rewrite Hj. apply resolve_render, clean_elems_names, Hrj.
Qed.

(** The path of an entry that passes the test of the loop lies strictly
    below the extraction directory. *)
Lemma passed_is_below (tmpDir name : string) :
  filepath.is_rooted tmpDir = true ->
  strings.HasPrefix (filepath.Join [tmpDir; name]) (filepath.Clean tmpDir ++ "/") = true ->
  below tmpDir (filepath.Join [tmpDir; name]).
Proof.
  intros Hr Hpre. destruct (join_rooted tmpDir name Hr) as (P & HP & Hj & Hres).
  rewrite Hj in Hpre. unfold filepath.Clean in Hpre. rewrite Hr in Hpre.
  apply prefix_test_sound in Hpre as (rest & Hne & ->);
    [|apply clean_elems_names, Hr|exact HP].
  exists rest. split; [exact Hne|]. rewrite Hres, (resolve_clean_elems tmpDir Hr).
  reflexivity.
Qed.

Lemma tls_no_sep (e : string) : has_sep e = false -> filepath.through_last_sep e = "".
Proof.
  induction e as [|c e IH]; cbn; intros He; [reflexivity|].
  apply orb_false_iff in He as [Hc He]. rewrite Hc, (IH He). reflexivity.
Qed.

Lemma tls_sep (s : string) :
  filepath.through_last_sep (String "/" s) = String "/" (filepath.through_last_sep s).
Proof. reflexivity. Qed.

Lemma tls_elem_sep (e rest : string) :
  filepath.through_last_sep (e ++ String "/" rest)
  = e ++ String "/" (filepath.through_last_sep rest).
Proof.
  induction e as [|c e IH]; cbn [String.append]; [apply tls_sep|].
  cbn [filepath.through_last_sep]. rewrite IH.
  replace (String.eqb (e ++ String "/" (filepath.through_last_sep rest)) "") with false.
  - rewrite orb_true_r. reflexivity.
  - symmetry. apply String.eqb_neq. destruct e; discriminate.
Qed.

Lemma tls_join (P : list string) :
  Forall (fun e => has_sep e = false) P ->
  filepath.through_last_sep (strings.Join P) = with_seps (removelast P).
Proof.
  induction 1 as [|p P Hp HP IH]; [reflexivity|]. destruct P as [|p' P].
  - cbn. apply tls_no_sep, Hp.
  - rewrite join_cons, tls_elem_sep, IH. reflexivity.
Qed.

Lemma Forall_removelast {A} (Q : A -> Prop) (l : list A) :
  Forall Q l -> Forall Q (removelast l).
Proof.
  induction 1 as [|a l Ha Hl IH]; [constructor|]. destruct l as [|b l].
  - constructor.
  - change (removelast (a :: b :: l)) with (a :: removelast (b :: l)).
    constructor; assumption.
Qed.

(** The directory of a cleaned absolute path leads to all but the last of
    its elements. *)
Lemma resolve_dir (P : list string) :
  Forall (fun x => is_name x = true) P ->
  resolve (filepath.Dir (filepath.render true P)) = removelast P.
Proof.
  intros HP. unfold filepath.Dir, filepath.render. cbn [String.append].
  rewrite tls_sep, tls_join by (apply names_no_sep, HP).
  rewrite resolve_clean by reflexivity.
  assert (HQ : Forall (fun x => is_name x = true) (removelast P))
    by (apply Forall_removelast, HP).
  unfold resolve. rewrite split_cons_sep, split_with_seps by (apply names_no_sep, HQ).
  cbn [fold_left]. change (walk [] "") with (@nil string).
  rewrite fold_left_app, (walk_names (removelast P) [] HQ). reflexivity.
Qed.

(** The directory of the path of an entry that passes the test is the
    extraction directory or lies below it. *)
Lemma passed_dir_within (tmpDir name : string) :
  filepath.is_rooted tmpDir = true ->
  strings.HasPrefix (filepath.Join [tmpDir; name]) (filepath.Clean tmpDir ++ "/") = true ->
  within tmpDir (filepath.Dir (filepath.Join [tmpDir; name])).
Proof.
  intros Hr Hpre. destruct (passed_is_below tmpDir name Hr Hpre) as (rest & Hne & Hres).
  destruct (join_rooted tmpDir name Hr) as (P & HP & Hj & HresP).
  rewrite HresP in Hres. subst P. exists (removelast rest).
  rewrite Hj, (resolve_dir _ HP). apply removelast_app, Hne.
Qed.

(** ** The extraction loop *)

Lemma Forall_snoc {A} (Q : A -> Prop) (l : list A) (x : A) :
  Forall Q l -> Q x -> Forall Q (l ++ [x]).
Proof. intros Hl Hx. apply Forall_app. split; [exact Hl|]. constructor; [exact Hx|constructor]. Qed.

(** Every call of the loop stays in the extraction directory. *)
Lemma extract_confined (W : World) (tmpDir : string) (files : list zip.File)
    (tr : list FsCall) :
  filepath.is_rooted tmpDir = true ->
  Forall (confined tmpDir) tr ->
  Forall (confined tmpDir) (fst (challenge.extract W tmpDir files tr)).
Proof.
  intros Hr. revert tr. induction files as [|file rest IH]; intros tr Htr; [exact Htr|].
  cbn [challenge.extract].
  destruct (strings.HasPrefix _ _) eqn:Hpre; cbn [negb]; [|exact Htr].
  pose proof (passed_is_below tmpDir (zip.Name file) Hr Hpre) as Hbelow.
  pose proof (passed_dir_within tmpDir (zip.Name file) Hr Hpre) as Hdir.
  assert (Hin : within tmpDir (filepath.Join [tmpDir; zip.Name file])).
  { destruct Hbelow as (r & _ & Hres). exists r. exact Hres. }
  destruct (zip.IsDir file).
  { apply IH, Forall_snoc; assumption. }
  destruct (os_MkdirAll W tr _); cbn [fst].
  { apply Forall_snoc; assumption. }
  destruct (os_OpenFile W _ _); cbn [fst].
  { repeat apply Forall_snoc; assumption. }
  destruct (zip.Body file) as [[data [err|]]|err]; cbn [fst].
  - repeat apply Forall_snoc; assumption.
  - apply IH. repeat apply Forall_snoc; assumption.
  - repeat apply Forall_snoc; assumption.
Qed.

(** The loop over a list of entries is the loop over its front part,
    followed, when that came to its end, by the loop over the rest. *)
Lemma extract_app (W : World) (tmpDir : string) (pre suf : list zip.File)
    (tr : list FsCall) :
  challenge.extract W tmpDir (pre ++ suf) tr =
  match challenge.extract W tmpDir pre tr with
  | (tr', None) => challenge.extract W tmpDir suf tr'
  | (tr', Some st) => (tr', Some st)
  end.
Proof.
  revert tr. induction pre as [|file pre IH]; intros tr; [reflexivity|].
  cbn [app challenge.extract].
  destruct (negb _); [reflexivity|].
  destruct (zip.IsDir file); [apply IH|].
  destruct (os_MkdirAll W tr _); [reflexivity|].
  destruct (os_OpenFile W _ _); [reflexivity|].
  destruct (zip.Body file) as [[data [err|]]|err]; [reflexivity|apply IH|reflexivity].
Qed.

(** An entry whose path is not below the extraction directory stops the
    loop with [InvalidArgument] before any call is made for it. *)
Lemma extract_stops (W : World) (tmpDir : string) (file : zip.File)
    (post : list zip.File) (tr : list FsCall) :
  filepath.is_rooted tmpDir = true ->
  ~ below tmpDir (filepath.Join [tmpDir; zip.Name file]) ->
  challenge.extract W tmpDir (file :: post) tr = (tr, Some (invalid_path (zip.Name file))).
Proof.
  intros Hr Hout. cbn [challenge.extract].
  destruct (strings.HasPrefix _ _) eqn:Hpre; [|reflexivity].
  exfalso. apply Hout, passed_is_below; assumption.
Qed.

(** Without a failing call the loop can only stop with
    [InvalidArgument]. *)
Lemma extract_faultless (W : World) (tmpDir : string) (files : list zip.File)
    (tr tr' : list FsCall) (st : status.Status) :
  io_faultless W files ->
  challenge.extract W tmpDir files tr = (tr', Some st) ->
  status.Code st = codes.InvalidArgument.
Proof.
  intros (Hmk & Hop & Hbody). revert tr.
  induction Hbody as [|file rest (data & Hfile) _ IH]; intros tr; [discriminate|].
  cbn [challenge.extract].
  destruct (negb _); [intros [= _ <-]; reflexivity|].
  destruct (zip.IsDir file); [apply IH|].
  rewrite Hmk, Hop, Hfile. apply IH.
Qed.

(** C10: with the temporary directory at an absolute path, every call
    [PushScenario] makes on the file system stays in that directory; and
    an entry of the archive whose joined path is not below it stops the
    extraction with [InvalidArgument] before any call is made for that
    entry, so that the request fails. *)
Theorem push_scenario_confined (W : World) (req : challenge.PushScenarioRequest)
    (tmpDir : string) :
  os_MkdirTemp W = Ok tmpDir ->
  filepath.is_rooted tmpDir = true ->
  Forall (confined tmpDir) (fst (challenge.PushScenario W req)) /\
  (forall pre file post,
     zip_NewReader W (challenge.ScenarioZip req) = Ok (pre ++ file :: post)%list ->
     ~ below tmpDir (filepath.Join [tmpDir; zip.Name file]) ->
     (forall tr, challenge.extract W tmpDir (file :: post) tr
                 = (tr, Some (invalid_path (zip.Name file)))) /\
     exists st,
       snd (challenge.PushScenario W req) = inr st /\
       (io_faultless W pre -> status.Code st = codes.InvalidArgument)).
Proof.
  intros Htmp Hr. split.
  - unfold challenge.PushScenario.
    destruct (_ =? 0)%Z; [constructor|].
    destruct (String.eqb _ _); [constructor|].
    destruct (_ || _); [constructor|].
    rewrite Htmp.
    assert (H0 : Forall (confined tmpDir) [MkdirTemp tmpDir])
      by (constructor; [reflexivity|constructor]).
    destruct (zip_NewReader W _) as [files|err]; cbn [fst].
    2:{ apply Forall_snoc; [exact H0|reflexivity]. }
    pose proof (extract_confined W tmpDir files _ Hr H0) as Hex.
    destruct (challenge.extract W tmpDir files _) as [tr [st|]]; cbn [fst] in *.
    { apply Forall_snoc; [exact Hex|reflexivity]. }
    destruct (scenario_EncodeOCI W tr _ _); cbn [fst];
      (apply Forall_snoc; [exact Hex|reflexivity]).
  - intros pre file post Hzip Hout. split.
    { intros tr. apply extract_stops; assumption. }
    unfold challenge.PushScenario.
    destruct (_ =? 0)%Z; [eexists; split; [reflexivity|reflexivity]|].
    destruct (String.eqb _ _); [eexists; split; [reflexivity|reflexivity]|].
    destruct (_ || _); [eexists; split; [reflexivity|reflexivity]|].
    rewrite Htmp, Hzip, extract_app.
    destruct (challenge.extract W tmpDir pre _) as [tr [st|]] eqn:Hpre.
    + exists st. split; [reflexivity|]. intros Hio.
      eapply extract_faultless; [exact Hio|exact Hpre].
    + rewrite (extract_stops W tmpDir file post tr Hr Hout).
      eexists. split; reflexivity.
Qed.

Lemma push_scenario_confined_witness :
  Forall (confined "/tmp/scenario-push-1") (fst (challenge.PushScenario Sample.world Sample.req)) /\
  exists st,
    snd (challenge.PushScenario Sample.world Sample.req) = inr st /\
    status.Code st = codes.InvalidArgument.
Proof.
  destruct (push_scenario_confined Sample.world Sample.req "/tmp/scenario-push-1"
              eq_refl eq_refl) as [Hconf Hrej].
  split; [exact Hconf|].
  destruct (Hrej [ {| zip.Name := "Pulumi.yaml"; zip.IsDir := false;
                      zip.Body := Ok ("name: demo", None) |} ]
                 {| zip.Name := "../../etc/cron.d/x"; zip.IsDir := false;
                    zip.Body := Ok ("* * * * * root id", None) |}
                 [] eq_refl) as (_ & st & Hst & Hcode).
  - intros (rest & _ & Hres). vm_compute in Hres. discriminate Hres.
  - exists st. split; [exact Hst|]. apply Hcode.
    split; [reflexivity|]. split; [reflexivity|].
    constructor; [eexists; reflexivity|constructor].
Defined.

(** The sample archive: the descriptor is written below the extraction
    directory, the entry that climbs out of it stops the request. *)
Example push_scenario_sample :
  challenge.PushScenario Sample.world Sample.req =
  ([MkdirTemp "/tmp/scenario-push-1"; MkdirAll "/tmp/scenario-push-1";
    OpenFile "/tmp/scenario-push-1/Pulumi.yaml";
    Copy "/tmp/scenario-push-1/Pulumi.yaml" "name: demo";
    RemoveAll "/tmp/scenario-push-1"],
   inr (invalid_path "../../etc/cron.d/x")).
Proof. reflexivity. Qed.

(** * Further properties of the adapter *)

(** ** Deadlines *)

Lemma wrap64_small (z : Z) :
  (- 2 ^ 63 <= z < 2 ^ 63)%Z -> wrap64 z = z.
Proof. intros Hz. unfold wrap64. rewrite Z.mod_small; lia. Qed.

(** X1: a [PulumiTimeout] between one second and the largest number of
    seconds an [int64] of nanoseconds holds is the deadline of [Up],
    [Preview] and [Down], in nanoseconds. *)
Theorem timeout_in_seconds (W : World) :
  (0 < global.PulumiTimeout (Conf W) <= 9223372036)%Z ->
  iac.op_timeout W = (global.PulumiTimeout (Conf W) * 1000000000)%Z /\
  (0 < iac.op_timeout W)%Z /\
  forall op stack,
    adapter_error W op stack =
    after_deadline op (global.PulumiTimeout (Conf W) * 1000000000)
      (engine_answer W op (iac.pas stack)
         (Some (global.PulumiTimeout (Conf W) * 1000000000)%Z)).
Proof.
  intros Hrange.
  assert (Ht : iac.op_timeout W = (global.PulumiTimeout (Conf W) * 1000000000)%Z).
  { unfold iac.op_timeout, time.mul, time.Second. rewrite wrap64_small by lia.
    destruct (Z.eqb_spec (global.PulumiTimeout (Conf W) * 1000000000) 0); [lia|reflexivity]. }
  split; [exact Ht|]. split; [lia|].
  intros op stack. rewrite adapter_error_unfold, Ht. reflexivity.
Qed.

Lemma timeout_in_seconds_witness :
  iac.op_timeout Sample.world = 120000000000%Z /\
  adapter_error Sample.world OpUp Sample.stack = None.
Proof.
  destruct (timeout_in_seconds Sample.world) as (Ht & _ & Hrun).
  - cbn. lia.
  - split; [exact Ht|]. rewrite Hrun. reflexivity.
Defined.


(** A configured value of 2^55 seconds wraps around to zero nanoseconds
    and is replaced by two minutes. *)
Example timeout_wraps_to_default :
  time.mul (2 ^ 55) time.Second = 0%Z /\
  time.mul 2 time.Minute = 120000000000%Z.
Proof. split; reflexivity. Qed.

(** X3: [Up], [Preview] and [Down] succeed exactly when the engine
    reports no error, whatever the state of the deadline, and an error of
    the engine met before the deadline expired is returned as it is. *)
Theorem engine_error_passed_through (W : World) (op : Op) (stack : iac.Stack) :
  (adapter_error W op stack = None <->
   fst (engine_answer W op (iac.pas stack) (Some (iac.op_timeout W))) = None) /\
  (forall e c,
     engine_answer W op (iac.pas stack) (Some (iac.op_timeout W)) = (Some e, c) ->
     c <> context.DeadlineExceeded ->
     adapter_error W op stack = Some e).
Proof.
  rewrite adapter_error_unfold.
  destruct (engine_answer W op (iac.pas stack) (Some (iac.op_timeout W))) as [[e|] c];
    cbn [after_deadline fst].
  - split.
    + split; [|discriminate].
      destruct (context.Err_eqb c context.DeadlineExceeded); discriminate.
    + intros e' c' [= <- <-] Hc. destruct c; [reflexivity|reflexivity|contradiction].
  - split; [tauto|]. intros e c' [=].
Qed.

(** ** More on Export *)

(** A [flag] output that is not a string stops the program. *)
Lemma export_flag_not_string (W : World) (stack : iac.Stack) (res : option iac.Result)
    (ist : fsapi.Instance) udp outputs coninfo :
  stack_Export W (iac.pas stack) = Ok udp ->
  outputs_of res = Some outputs ->
  outputs !! "connection_info" = Some coninfo ->
  single_flag outputs = None ->
  iac.Export W stack res ist = Panicked.
Proof.
  intros Hudp Hout Hci Hflag.
  unfold iac.Export. fold (outputs_of res). rewrite Hudp, Hout, Hci.
  unfold single_flag in Hflag. destruct (outputs !! "flag") as [vf|]; [|discriminate].
  destruct (as_string (auto.OValue vf)); [discriminate|reflexivity].
Qed.

(** X4: [Export] stops the program on an unchecked type assertion exactly
    when the deployment was exported, [connection_info] is present, and
    either [flag] is present and not a string, or the flags were gathered
    and [connection_info] is not a string. *)
Theorem export_panics_iff (W : World) (stack : iac.Stack) (res : option iac.Result)
    (ist : fsapi.Instance) :
  iac.Export W stack res ist = Panicked <->
  exists udp outputs coninfo,
    stack_Export W (iac.pas stack) = Ok udp /\
    outputs_of res = Some outputs /\
    outputs !! "connection_info" = Some coninfo /\
    (single_flag outputs = None \/
     exists first flags,
       single_flag outputs = Some first /\
       listed_flags outputs first = Ok flags /\
       as_string (auto.OValue coninfo) = None).
Proof.
  split.
  - intros Hpanic.
    destruct (stack_Export W (iac.pas stack)) as [udp|] eqn:Hudp;
      [|unfold iac.Export in Hpanic; rewrite Hudp in Hpanic; discriminate].
    destruct (outputs_of res) as [outputs|] eqn:Hout;
      [|unfold iac.Export in Hpanic; fold (outputs_of res) in Hpanic;
        rewrite Hudp, Hout in Hpanic; discriminate].
    destruct (outputs !! "connection_info") as [coninfo|] eqn:Hci;
      [|unfold iac.Export in Hpanic; fold (outputs_of res) in Hpanic;
        rewrite Hudp, Hout, Hci in Hpanic; discriminate].
    exists udp, outputs, coninfo. repeat (split; [reflexivity || assumption|]).
    destruct (single_flag outputs) as [first|] eqn:Hfirst; [right|left; reflexivity].
    rewrite (export_run W stack res ist udp outputs coninfo first Hudp Hout Hci Hfirst)
      in Hpanic.
    destruct (listed_flags outputs first) as [flags|] eqn:Hflags; [|discriminate].
    destruct (as_string (auto.OValue coninfo)) eqn:Hv; [discriminate|].
    exists first, flags. auto.
  - intros (udp & outputs & coninfo & Hudp & Hout & Hci & [Hflag | Hrest]).
    + eapply export_flag_not_string; eassumption.
    + destruct Hrest as (first & flags & Hfirst & Hflags & Hv).
      rewrite (export_run W stack res ist udp outputs coninfo first Hudp Hout Hci Hfirst).
      rewrite Hflags, Hv. reflexivity.
Qed.

(** A [flag] output that is a number stops the program. *)
Example export_panics_sample :
  iac.Export Sample.world Sample.stack
    (Sample.result_of
       (<["flag" := {| auto.OValue := ANumber 1; auto.OSecret := false |}]> Sample.outputs))
    Sample.ist = Panicked.
Proof. reflexivity. Qed.

(** X5: a [flags] output that is not an array is passed over: [Export]
    returns without error and the flags of the record are those of the
    single [flag] output alone. *)
Theorem export_ignores_flags_not_array (W : World) (stack : iac.Stack)
    (res : option iac.Result) (ist : fsapi.Instance) udp outputs coninfo ci first vfs :
  stack_Export W (iac.pas stack) = Ok udp ->
  outputs_of res = Some outputs ->
  outputs !! "connection_info" = Some coninfo ->
  auto.OValue coninfo = AString ci ->
  single_flag outputs = Some first ->
  outputs !! "flags" = Some vfs ->
  as_array (auto.OValue vfs) = None ->
  iac.Export W stack res ist = Returned (Ok (exported ist (auto.Deployment udp) ci first)) /\
  (length first <= 1)%nat.
Proof.
  intros Hudp Hout Hci Hv Hfirst Hfs Harr. split.
  - rewrite (export_run W stack res ist udp outputs coninfo first Hudp Hout Hci Hfirst).
    unfold listed_flags. rewrite Hfs, Harr, Hv. reflexivity.
  - unfold single_flag in Hfirst. destruct (outputs !! "flag") as [vf|].
    + destruct (as_string (auto.OValue vf)); [|discriminate].
      cbn in Hfirst. injection Hfirst as <-. cbn. lia.
    + injection Hfirst as <-. cbn. lia.
Qed.

Lemma export_ignores_flags_not_array_witness :
  iac.Export Sample.world Sample.stack
    (Sample.result_of
       (<["flags" := {| auto.OValue := AString "FLAG{b}"; auto.OSecret := false |}]>
          Sample.outputs)) Sample.ist
  = Returned (Ok (exported Sample.ist "{}" "nc 127.0.0.1 31000" ["FLAG{a}"])).
Proof.
  apply (export_ignores_flags_not_array Sample.world Sample.stack _ Sample.ist
           {| auto.Version := 3; auto.Deployment := "{}" |}
           (<["flags" := {| auto.OValue := AString "FLAG{b}"; auto.OSecret := false |}]>
              Sample.outputs)
           {| auto.OValue := AString "nc 127.0.0.1 31000"; auto.OSecret := false |}
           "nc 127.0.0.1 31000" ["FLAG{a}"]
           {| auto.OValue := AString "FLAG{b}"; auto.OSecret := false |});
    reflexivity.
Defined.

(** X6: every error [Export] returns is an [ErrInternal]. *)
Theorem export_errors_internal (W : World) (stack : iac.Stack) (res : option iac.Result)
    (ist : fsapi.Instance) (e : error) :
  iac.Export W stack res ist = Returned (Err e) ->
  errs.kind e = errs.Internal.
Proof.
  intros Herr.
  destruct (stack_Export W (iac.pas stack)) as [udp|] eqn:Hudp;
    [|unfold iac.Export in Herr; rewrite Hudp in Herr; injection Herr as <-; reflexivity].
  destruct (outputs_of res) as [outputs|] eqn:Hout;
    [|unfold iac.Export in Herr; fold (outputs_of res) in Herr;
      rewrite Hudp, Hout in Herr; injection Herr as <-; reflexivity].
  destruct (outputs !! "connection_info") as [coninfo|] eqn:Hci;
    [|unfold iac.Export in Herr; fold (outputs_of res) in Herr;
      rewrite Hudp, Hout, Hci in Herr; injection Herr as <-; reflexivity].
  destruct (single_flag outputs) as [first|] eqn:Hfirst.
  - rewrite (export_run W stack res ist udp outputs coninfo first Hudp Hout Hci Hfirst)
      in Herr.
    unfold listed_flags in Herr.
    destruct (outputs !! "flags") as [vfs|].
    + destruct (as_array (auto.OValue vfs)) as [l|].
      * destruct (append_flags_cases l first) as [(fs & _ & Hl) | (v & _ & _ & Hl)];
          rewrite Hl in Herr.
        -- destruct (as_string (auto.OValue coninfo)); discriminate.
        -- injection Herr as <-. reflexivity.
      * destruct (as_string (auto.OValue coninfo)); discriminate.
    + destruct (as_string (auto.OValue coninfo)); discriminate.
  - rewrite (export_flag_not_string W stack res ist udp outputs coninfo
               Hudp Hout Hci Hfirst) in Herr.
    discriminate.
Qed.

Lemma export_errors_internal_witness :
  errs.kind (invalid_flag (ANumber 7)) = errs.Internal.
Proof.
  apply (export_errors_internal Sample.world Sample.stack
           (Sample.result_of
              (<["flags" := {| auto.OValue := AArray [AString "FLAG{b}"; ANumber 7];
                               auto.OSecret := false |}]> Sample.outputs)) Sample.ist).
  reflexivity.
Defined.

(** ** More on stack construction and configuration *)

(** X7: every error [NewStack] returns is an [ErrInternal], also when
    loading failed on the scenario's project descriptor. *)
Theorem new_stack_errors_internal (W : World) (fschall : fsapi.Challenge) (id : string)
    (e : error) :
  iac.NewStack W fschall id = Err e ->
  exists sub, e = ErrInternal sub.
Proof.
  unfold iac.NewStack.
  destruct (iac.LoadStack W (fsapi.Scenario fschall) id) as [stack0|e0]; cbn.
  2:{ intros [= <-]. eauto. }
  destruct (0 <? Z.of_nat (length (fsapi.ImagePullSecrets fschall)))%Z.
  - destruct (json_Marshal_strings W _) as [b|e1]; cbn.
    2:{ intros [= <-]. eauto. }
    destruct (iac.SetAllConfig W stack0 _) as [s|e2]; cbn; [discriminate|].
    intros [= <-]. eauto.
  - cbn. destruct (iac.SetAllConfig W stack0 _) as [s|e2]; cbn; [discriminate|].
    intros [= <-]. eauto.
Qed.

Lemma new_stack_errors_internal_witness :
  exists sub,
    ErrInternal (ErrScenario (Wrap (Raised "no such file or directory")
                                "no Pulumi.yaml/Pulumi.yml file")) = ErrInternal sub.
Proof.
  apply (new_stack_errors_internal Sample.bare_world Sample.chall "id1"). reflexivity.
Defined.

(** X8: [NewStack] followed by [Additional] writes no key but
    [identity], [challenge_id], [image_pull_secrets] and [additional]:
    every other key, the name and the workspace of the stack are those
    of the stack [LoadStack] opened. *)
Theorem scenario_configuration_frame (W : World) (fschall : fsapi.Challenge) (id : string)
    (istAdd : gmap string string) (stack1 stack2 : iac.Stack) :
  iac.NewStack W fschall id = Ok stack1 ->
  iac.Additional W stack1 (fsapi.Additional fschall) istAdd = Ok stack2 ->
  exists stack0,
    iac.LoadStack W (fsapi.Scenario fschall) id = Ok stack0 /\
    auto.Name (iac.pas stack2) = auto.Name (iac.pas stack0) /\
    auto.Ws (iac.pas stack2) = auto.Ws (iac.pas stack0) /\
    forall k,
      k <> "identity" -> k <> "challenge_id" ->
      k <> "image_pull_secrets" -> k <> "additional" ->
      auto.Config (iac.pas stack2) !! k = auto.Config (iac.pas stack0) !! k.
Proof.
  intros Hnew Hadd. unfold iac.NewStack in Hnew.
  destruct (iac.LoadStack W (fsapi.Scenario fschall) id) as [stack0|]; [|discriminate].
  cbn in Hnew. exists stack0. split; [reflexivity|].
  apply additional_ok_inv in Hadd as (b & _ & Hn2 & Hw2 & Hc2).
  assert (Hset : exists config,
             iac.SetAllConfig W stack0 config = Ok stack1 /\
             forall k, k <> "identity" -> k <> "challenge_id" ->
                       k <> "image_pull_secrets" -> config !! k = None).
  { destruct (0 <? Z.of_nat (length (fsapi.ImagePullSecrets fschall)))%Z.
    - destruct (json_Marshal_strings W _) as [bs|]; [|discriminate]. cbn in Hnew.
      destruct (iac.SetAllConfig W stack0 _) as [s|] eqn:Hall; [|discriminate].
      injection Hnew as <-. eexists. split; [exact Hall|].
      intros k H1 H2 H3. rewrite !lookup_insert_ne by congruence.
      apply lookup_singleton_ne. congruence.
    - cbn in Hnew.
      destruct (iac.SetAllConfig W stack0 _) as [s|] eqn:Hall; [|discriminate].
      injection Hnew as <-. eexists. split; [exact Hall|].
      intros k H1 H2 H3. rewrite !lookup_insert_ne by congruence.
      apply lookup_singleton_ne. congruence. }
  destruct Hset as (config & Hall & Hnone).
  apply set_all_config_ok_inv in Hall as (_ & Hn1 & Hw1 & Hc1).
  rewrite Hn2, Hn1, Hw2, Hw1. repeat split.
  intros k H1 H2 H3 H4. rewrite Hc2, lookup_insert_ne, Hc1 by congruence.
  apply lookup_union_r, Hnone; assumption.
Qed.

Lemma scenario_configuration_frame_witness :
  exists stack0,
    iac.LoadStack Sample.world "demo" "id1" = Ok stack0 /\
    auto.Name (iac.pas stack0) = "organization/demo/id1".
Proof.
  destruct (scenario_configuration_frame Sample.world Sample.chall_secrets "id1"
              (fsapi.IstAdditional Sample.ist)
              {| iac.pas := {| auto.Name := "organization/demo/id1";
                               auto.Ws := _; auto.Config := _ |} |}
              {| iac.pas := {| auto.Name := "organization/demo/id1";
                               auto.Ws := _; auto.Config := _ |} |}
              eq_refl eq_refl) as (stack0 & Hload & Hname & _).
  exists stack0. split; [exact Hload|]. rewrite <- Hname. reflexivity.
Defined.

(** X9: [Additional] touches the key [additional] alone, and a second
    call replaces what the first one stored: after two calls the stack is
    configured as after the second call alone. *)
Theorem additional_last_call_wins (W : World) (stack stack1 stack2 : iac.Stack)
    (challAdd istAdd challAdd' istAdd' : gmap string string) :
  iac.Additional W stack challAdd istAdd = Ok stack1 ->
  iac.Additional W stack1 challAdd' istAdd' = Ok stack2 ->
  exists b,
    json_Marshal_map W (istAdd' ∪ challAdd') = Ok b /\
    auto.Config (iac.pas stack2) = <["additional" := plain b]> (auto.Config (iac.pas stack)) /\
    auto.Name (iac.pas stack2) = auto.Name (iac.pas stack) /\
    auto.Ws (iac.pas stack2) = auto.Ws (iac.pas stack) /\
    forall k, k <> "additional" ->
              auto.Config (iac.pas stack1) !! k = auto.Config (iac.pas stack) !! k.
Proof.
  intros H1 H2.
  apply additional_ok_inv in H1 as (b1 & _ & Hn1 & Hw1 & Hc1).
  apply additional_ok_inv in H2 as (b2 & Hb2 & Hn2 & Hw2 & Hc2).
  exists b2. split; [exact Hb2|]. split; [|split; [|split]].
  - rewrite Hc2, Hc1. apply insert_insert_eq.
  - congruence.
  - congruence.
  - intros k Hk. rewrite Hc1. apply lookup_insert_ne. congruence.
Qed.

Lemma additional_last_call_wins_witness :
  exists b,
    json_Marshal_map Sample.world (∅ ∪ {["k" := "v"]}) = Ok b /\
    b = Sample.marshal_map {["k" := "v"]}.
Proof.
  destruct (additional_last_call_wins Sample.world Sample.stack
              {| iac.pas := {| auto.Name := _; auto.Ws := _; auto.Config := _ |} |}
              {| iac.pas := {| auto.Name := _; auto.Ws := _; auto.Config := _ |} |}
              (fsapi.Additional Sample.chall) (fsapi.IstAdditional Sample.ist)
              {["k" := "v"]} ∅ eq_refl eq_refl) as (b & Hb & _).
  exists b. split; [exact Hb|]. vm_compute in Hb. injection Hb as <-. vm_compute. reflexivity.
Defined.

(** X10: the project descriptor is read from [Pulumi.yaml] when that file
    can be read, else from [Pulumi.yml]; when neither can, [LoadStack]
    returns a scenario error that wraps the error of reading
    [Pulumi.yml], the one of [Pulumi.yaml] being dropped. *)
Theorem descriptor_fallback (W : World) (scenario id dir : string) :
  oci_Load W scenario = Ok dir ->
  (forall b,
     os_ReadFile W (filepath.Join [dir; "Pulumi.yaml"]) = Ok b ->
     iac.loadPulumiYml W dir = Ok b) /\
  (forall e b,
     os_ReadFile W (filepath.Join [dir; "Pulumi.yaml"]) = Err e ->
     os_ReadFile W (filepath.Join [dir; "Pulumi.yml"]) = Ok b ->
     iac.loadPulumiYml W dir = Ok b) /\
  (forall e1 e2,
     os_ReadFile W (filepath.Join [dir; "Pulumi.yaml"]) = Err e1 ->
     os_ReadFile W (filepath.Join [dir; "Pulumi.yml"]) = Err e2 ->
     iac.LoadStack W scenario id
       = Err (ErrScenario (Wrap e2 "no Pulumi.yaml/Pulumi.yml file"))).
Proof.
  intros Hdir. unfold iac.loadPulumiYml. repeat split.
  - intros b ->. reflexivity.
  - intros e b -> ->. reflexivity.
  - intros e1 e2 H1 H2. unfold iac.LoadStack, iac.loadPulumiYml.
    rewrite Hdir. cbn -[filepath.Join]. rewrite H1, H2. reflexivity.
Qed.

Lemma descriptor_fallback_witness :
  iac.loadPulumiYml Sample.world "/cache/demo" = Ok "name: demo" /\
  iac.LoadStack Sample.bare_world "demo" "id1"
    = Err (ErrScenario (Wrap (Raised "no such file or directory")
                          "no Pulumi.yaml/Pulumi.yml file")).
Proof.
  split.
  - apply (proj1 (descriptor_fallback Sample.world "demo" "id1" "/cache/demo" eq_refl)).
    reflexivity.
  - apply (proj2 (proj2 (descriptor_fallback Sample.bare_world "demo" "id1" "/cache/demo"
                           eq_refl))
             (Raised "no such file or directory") (Raised "no such file or directory"));
      reflexivity.
Defined.

(** ** The identity drawn for validation *)

Lemma hex_decode_encode (src : list Byte.byte) :
  hex_decode (hex.EncodeToString src) = Some src.
Proof.
  induction src as [|b src IH]; [reflexivity|].
  cbn [hex.EncodeToString hex_decode]. rewrite IH. destruct b; reflexivity.
Qed.

Lemma hex_digits (src : list Byte.byte) :
  Forall (fun c => is_Some (hex_value c)) (list_ascii_of_string (hex.EncodeToString src)).
Proof.
  induction src as [|b src IH]; [constructor|].
  cbn [hex.EncodeToString].
  destruct b; cbn; (constructor; [eexists; reflexivity|]);
    (constructor; [eexists; reflexivity|]); exact IH.
Qed.

(** X11: the identity [Validate] draws is the writing of the eight bytes
    [rand.Read] filled in sixteen lower-case hexadecimal digits. It
    reads back to exactly those bytes, so two draws give the same
    identity exactly when their eight bytes are the same. *)
Theorem rand_name_faithful (W : World) :
  String.length (iac.randName W) = 16%nat /\
  Forall (fun c => is_Some (hex_value c)) (list_ascii_of_string (iac.randName W)) /\
  hex_decode (iac.randName W) = Some (vec_to_list (rand_Read W)) /\
  (forall W', iac.randName W = iac.randName W' <-> rand_Read W = rand_Read W').
Proof.
  split; [apply rand_name_length|]. split; [apply hex_digits|].
  split; [apply hex_decode_encode|].
  intros W'. split.
  - intros Heq.
    assert (H : hex_decode (iac.randName W) = hex_decode (iac.randName W'))
      by (rewrite Heq; reflexivity).
    unfold iac.randName in H. rewrite !hex_decode_encode in H. injection H as H.
    apply vec_to_list_inj2. exact H.
  - intros Heq. unfold iac.randName. rewrite Heq. reflexivity.
Qed.

Example rand_name_sample : iac.randName Sample.world = "001fa0ff07c49e52".
Proof. reflexivity. Qed.

(** X12: [Validate] configures the stack it previews with [identity] and
    [additional] and with nothing else: every other key, [challenge_id]
    and [image_pull_secrets] among them, is as the upserted stack had
    it. *)
Theorem validate_configuration_frame (W : World) (fschall : fsapi.Challenge)
    (stack stack1 stack2 : iac.Stack) :
  iac.LoadStack W (fsapi.Scenario fschall) (iac.randName W) = Ok stack ->
  iac.SetAllConfig W stack {["identity" := plain (iac.randName W)]} = Ok stack1 ->
  iac.Additional W stack1 (fsapi.Additional fschall) ∅ = Ok stack2 ->
  iac.Validate W fschall =
    match fst (stack_Preview W (iac.pas stack2) None) with
    | Some e => Some (ErrScenario e)
    | None => None
    end /\
  auto.Name (iac.pas stack2)
    = auto.Name (iac.pas stack) /\
  (forall k, k <> "identity" -> k <> "additional" ->
             auto.Config (iac.pas stack2) !! k = auto.Config (iac.pas stack) !! k) /\
  auto.Config (iac.pas stack2) !! "challenge_id"
    = auto.Config (iac.pas stack) !! "challenge_id".
Proof.
  intros Hload Hall Hadd.
  assert (Hval : iac.Validate W fschall =
                 match fst (stack_Preview W (iac.pas stack2) None) with
                 | Some e => Some (ErrScenario e)
                 | None => None
                 end).
  { unfold iac.Validate. rewrite Hload, Hall, Hadd.
    destruct (stack_Preview W (iac.pas stack2) None) as [[e|] c]; reflexivity. }
  apply set_all_config_ok_inv in Hall as (_ & Hn1 & _ & Hc1).
  apply additional_ok_inv in Hadd as (b & _ & Hn2 & _ & Hc2).
  assert (Hframe : forall k, k <> "identity" -> k <> "additional" ->
             auto.Config (iac.pas stack2) !! k = auto.Config (iac.pas stack) !! k).
  { intros k H1 H2. rewrite Hc2, lookup_insert_ne, Hc1 by congruence.
    apply lookup_union_r, lookup_singleton_ne. congruence. }
  split; [exact Hval|]. split; [congruence|]. split; [exact Hframe|].
  apply Hframe; discriminate.
Qed.

Lemma validate_configuration_frame_witness :
  iac.Validate Sample.world Sample.chall = None.
Proof.
  refine (eq_trans (proj1 (validate_configuration_frame Sample.world Sample.chall
            {| iac.pas := {| auto.Name := _; auto.Ws := _; auto.Config := _ |} |}
            {| iac.pas := {| auto.Name := _; auto.Ws := _; auto.Config := _ |} |}
            {| iac.pas := {| auto.Name := _; auto.Ws := _; auto.Config := _ |} |}
            eq_refl eq_refl eq_refl)) _).
  reflexivity.
Defined.

(** * Further properties of [PushScenario] *)

(** X13: a request without archive, without reference, or met while the
    registry credentials are not configured is refused with
    [InvalidArgument] before anything is done on the file system. *)
Theorem push_scenario_validation (W : World) (req : challenge.PushScenarioRequest) :
  challenge.ScenarioZip req = "" \/ challenge.Reference req = "" \/
  global.OCI_Username (Conf W) = "" \/ global.OCI_Password (Conf W) = "" ->
  exists st,
    challenge.PushScenario W req = ([], inr st) /\
    status.Code st = codes.InvalidArgument.
Proof.
  intros Hbad. unfold challenge.PushScenario.
  destruct (Z.eqb_spec (Z.of_nat (String.length (challenge.ScenarioZip req))) 0) as [|Hzip];
    [eexists; split; reflexivity|].
  destruct (String.eqb_spec (challenge.Reference req) "") as [|Href];
    [eexists; split; reflexivity|].
  destruct (String.eqb_spec (global.OCI_Username (Conf W)) "") as [|Huser];
    [eexists; split; reflexivity|].
  destruct (String.eqb_spec (global.OCI_Password (Conf W)) "") as [|Hpass];
    [eexists; split; reflexivity|].
  exfalso. destruct Hbad as [Hz | [Hr | [Hu | Hp]]]; try contradiction.
  rewrite Hz in Hzip. apply Hzip. reflexivity.
Qed.

Lemma push_scenario_validation_witness :
  exists st,
    challenge.PushScenario Sample.world
      {| challenge.ScenarioZip := "PK"; challenge.Reference := "" |} = ([], inr st) /\
    status.Code st = codes.InvalidArgument.
Proof.
  apply (push_scenario_validation Sample.world). right. left. reflexivity.
Defined.

(** The loop adds calls of its own to those made before, and nothing
    else. *)
Lemma extract_extends (W : World) (tmpDir : string) (files : list zip.File)
    (tr : list FsCall) :
  exists added,
    fst (challenge.extract W tmpDir files tr) = (tr ++ added)%list /\
    Forall (fun c => is_entry_call c = true) added.
Proof.
  revert tr. induction files as [|file rest IH]; intros tr.
  { exists []. rewrite app_nil_r. split; [reflexivity|constructor]. }
  cbn [challenge.extract].
  assert (Hnil : exists added, tr = (tr ++ added)%list /\
                               Forall (fun c => is_entry_call c = true) added).
  { exists []. rewrite app_nil_r. split; [reflexivity|constructor]. }
  assert (Hstep : forall (calls : list FsCall),
            Forall (fun c => is_entry_call c = true) calls ->
            forall r : list FsCall * option status.Status,
                      (exists added,
                         fst r = ((tr ++ calls) ++ added)%list /\
                         Forall (fun c => is_entry_call c = true) added) ->
                      exists added,
                        fst r = (tr ++ added)%list /\
                        Forall (fun c => is_entry_call c = true) added).
  { intros calls Hcalls r (added & Hr & Hadded). exists (calls ++ added)%list.
    rewrite Hr, <- app_assoc. split; [reflexivity|]. apply Forall_app. auto. }
  destruct (negb _); [exact Hnil|].
  destruct (zip.IsDir file).
  { apply (Hstep [MkdirAll (filepath.Join [tmpDir; zip.Name file])]);
      [repeat constructor|apply IH]. }
  destruct (os_MkdirAll W tr _); cbn [fst].
  { eexists. split; [reflexivity|repeat constructor]. }
  destruct (os_OpenFile W _ _); cbn [fst].
  { exists [MkdirAll (filepath.Dir (filepath.Join [tmpDir; zip.Name file]));
            OpenFile (filepath.Join [tmpDir; zip.Name file])].
    rewrite <- app_assoc. split; [reflexivity|repeat constructor]. }
  destruct (zip.Body file) as [[data [err|]]|err]; cbn [fst].
  - exists [MkdirAll (filepath.Dir (filepath.Join [tmpDir; zip.Name file]));
            OpenFile (filepath.Join [tmpDir; zip.Name file]);
            Copy (filepath.Join [tmpDir; zip.Name file]) data].
    rewrite <- !app_assoc. split; [reflexivity|repeat constructor].
  - apply (Hstep [MkdirAll (filepath.Dir (filepath.Join [tmpDir; zip.Name file]));
                  OpenFile (filepath.Join [tmpDir; zip.Name file]);
                  Copy (filepath.Join [tmpDir; zip.Name file]) data]);
      [repeat constructor|].
    rewrite <- !app_assoc. apply IH.
  - exists [MkdirAll (filepath.Dir (filepath.Join [tmpDir; zip.Name file]));
            OpenFile (filepath.Join [tmpDir; zip.Name file])].
    rewrite <- app_assoc. split; [reflexivity|repeat constructor].
Qed.

(** X14: a run of [PushScenario] either makes no call on the file system
    at all, or makes the temporary directory first and removes it last,
    whatever happens in between; the calls in between are those of the
    extraction loop. *)
Theorem push_scenario_cleans_up (W : World) (req : challenge.PushScenarioRequest) :
  fst (challenge.PushScenario W req) = [] \/
  exists tmpDir mid,
    os_MkdirTemp W = Ok tmpDir /\
    fst (challenge.PushScenario W req)
      = (MkdirTemp tmpDir :: mid ++ [RemoveAll tmpDir])%list /\
    Forall (fun c => is_entry_call c = true) mid.
Proof.
  unfold challenge.PushScenario.
  destruct (_ =? 0)%Z; [left; reflexivity|].
  destruct (String.eqb _ _); [left; reflexivity|].
  destruct (_ || _); [left; reflexivity|].
  destruct (os_MkdirTemp W) as [tmpDir|]; [|left; reflexivity].
  right. exists tmpDir.
  destruct (zip_NewReader W _) as [files|]; cbn [fst].
  2:{ exists []. repeat split. constructor. }
  destruct (extract_extends W tmpDir files [MkdirTemp tmpDir]) as (mid & Hmid & Hcalls).
  exists mid.
  destruct (challenge.extract W tmpDir files _) as [tr [st|]]; cbn [fst] in *.
  { rewrite Hmid. repeat split. exact Hcalls. }
  destruct (scenario_EncodeOCI W tr _ _); cbn [fst]; rewrite Hmid; repeat split; exact Hcalls.
Qed.

(** A loop that came to its end extracted every entry: each passed the
    test, each file read to its end, and the calls are those of the
    entries in the order of the archive. *)
Lemma extract_success_inv (W : World) (tmpDir : string) (files : list zip.File)
    (tr tr' : list FsCall) :
  challenge.extract W tmpDir files tr = (tr', None) ->
  Forall (entry_sound tmpDir) files /\
  tr' = (tr ++ concat (map (entry_calls tmpDir) files))%list.
Proof.
  revert tr. induction files as [|file rest IH]; intros tr.
  { intros [= <-]. cbn. rewrite app_nil_r. split; [constructor|reflexivity]. }
  cbn [challenge.extract map concat]. unfold entry_calls at 1, entry_sound at 1.
  destruct (strings.HasPrefix _ _) eqn:Hpre; cbn [negb]; [|discriminate].
  destruct (zip.IsDir file) eqn:Hdir.
  { intros Hrest. apply IH in Hrest as (Hall & ->). split.
    - constructor; [|exact Hall]. unfold entry_sound. rewrite Hdir. split; [exact Hpre|discriminate].
    - rewrite <- app_assoc. reflexivity. }
  destruct (os_MkdirAll W tr _); [discriminate|].
  destruct (os_OpenFile W _ _); [discriminate|].
  destruct (zip.Body file) as [[data [err|]]|err] eqn:Hbody; try discriminate.
  intros Hrest. apply IH in Hrest as (Hall & ->). split.
  - constructor; [|exact Hall]. unfold entry_sound. split; [exact Hpre|]. eauto.
  - rewrite <- !app_assoc. reflexivity.
Qed.

(** X15: when [PushScenario] answers with success, every entry of the
    archive passed the traversal test and every file read to its end; the
    calls on the file system are the making of the temporary directory,
    the calls of each entry in the order of the archive, and the removal
    of the directory; the registry push was made after the last entry,
    for the reference of the request, which the answer repeats. *)
Theorem push_scenario_success (W : World) (req : challenge.PushScenarioRequest)
    (resp : challenge.PushScenarioResponse) :
  snd (challenge.PushScenario W req) = inl resp ->
  resp = pushed req /\
  exists tmpDir files,
    os_MkdirTemp W = Ok tmpDir /\
    zip_NewReader W (challenge.ScenarioZip req) = Ok files /\
    Forall (entry_sound tmpDir) files /\
    scenario_EncodeOCI W (MkdirTemp tmpDir :: concat (map (entry_calls tmpDir) files))
      (challenge.Reference req) tmpDir = None /\
    fst (challenge.PushScenario W req)
      = (MkdirTemp tmpDir :: concat (map (entry_calls tmpDir) files)
           ++ [RemoveAll tmpDir])%list.
Proof.
  unfold challenge.PushScenario.
  destruct (_ =? 0)%Z; [discriminate|].
  destruct (String.eqb _ _); [discriminate|].
  destruct (_ || _); [discriminate|].
  destruct (os_MkdirTemp W) as [tmpDir|]; [|discriminate].
  destruct (zip_NewReader W _) as [files|]; [|discriminate].
  destruct (challenge.extract W tmpDir files _) as [tr [st|]] eqn:Hex; [discriminate|].
  apply extract_success_inv in Hex as (Hall & ->).
  destruct (scenario_EncodeOCI W _ _ _) eqn:Hpush; [discriminate|].
  cbn [fst snd]. intros [= <-]. split; [reflexivity|].
  exists tmpDir, files. repeat split; assumption.
Qed.

Lemma push_scenario_success_witness :
  fst (challenge.PushScenario (with_archive Sample.world good_archive) Sample.req)
  = [MkdirTemp "/tmp/scenario-push-1";
     MkdirAll "/tmp/scenario-push-1";
     OpenFile "/tmp/scenario-push-1/Pulumi.yaml";
     Copy "/tmp/scenario-push-1/Pulumi.yaml" "name: demo";
     MkdirAll "/tmp/scenario-push-1/src";
     MkdirAll "/tmp/scenario-push-1/src";
     OpenFile "/tmp/scenario-push-1/src/main.go";
     Copy "/tmp/scenario-push-1/src/main.go" "package main";
     RemoveAll "/tmp/scenario-push-1"].
Proof.
  destruct (push_scenario_success (with_archive Sample.world good_archive) Sample.req
              (pushed Sample.req) eq_refl) as (_ & tmpDir & files & Htmp & Hzip & _ & _ & Htr).
  injection Htmp as <-. injection Hzip as <-. rewrite Htr. reflexivity.
Defined.

(** ** The traversal test is exact *)

Lemma has_prefix_app (a b : string) : strings.HasPrefix (a ++ b) a = true.
Proof.
  induction a as [|c a IH]; cbn; [destruct b; reflexivity|].
  rewrite Ascii.eqb_refl. exact IH.
Qed.

Lemma join_app (T rest : list string) :
  rest <> [] -> strings.Join (T ++ rest) = with_seps T ++ strings.Join rest.
Proof.
  intros Hne. induction T as [|t T IH]; [reflexivity|].
  cbn [app with_seps]. destruct (T ++ rest)%list as [|x xs] eqn:Happ.
  - destruct T; [contradiction|discriminate].
  - rewrite join_cons, IH, !string_app_assoc. reflexivity.
Qed.

(** An entry that passes the test of the loop has a call made for it. *)
Lemma extract_passed_calls (W : World) (tmpDir : string) (file : zip.File)
    (rest : list zip.File) (tr : list FsCall) :
  strings.HasPrefix (filepath.Join [tmpDir; zip.Name file]) (filepath.Clean tmpDir ++ "/")
    = true ->
  (length tr < length (fst (challenge.extract W tmpDir (file :: rest) tr)))%nat.
Proof.
  intros Hpre. cbn [challenge.extract]. rewrite Hpre. cbn [negb].
  assert (Hmore : forall calls : list FsCall,
            calls <> [] ->
            (length tr < length (fst (challenge.extract W tmpDir rest (tr ++ calls))))%nat).
  { intros calls Hne. destruct (extract_extends W tmpDir rest (tr ++ calls)) as (added & -> & _).
    rewrite !length_app. destruct calls; [contradiction|]. cbn. lia. }
  destruct (zip.IsDir file); [apply Hmore; discriminate|].
  destruct (os_MkdirAll W tr _); [cbn; rewrite length_app; cbn; lia|].
  destruct (os_OpenFile W _ _); [cbn; rewrite !length_app; cbn; lia|].
  destruct (zip.Body file) as [[data [e|]]|e]; cbn [fst]; rewrite <- ?app_assoc.
  - rewrite !length_app. cbn. lia.
  - apply Hmore. discriminate.
  - rewrite !length_app. cbn. lia.
Qed.

(** X16: for an extraction directory at an absolute path other than the
    root, an entry passes the test of the loop exactly when its joined
    path lies strictly below the directory: the test refuses no entry it
    could have extracted in place. With the root as directory it refuses
    every entry. The loop of [PushScenario] stops at an entry with the
    invalid-path status, no call made for it, exactly when the entry
    fails that test. *)
Theorem traversal_test_exact (tmpDir name : string) :
  filepath.is_rooted tmpDir = true ->
  (resolve tmpDir <> [] ->
   (strings.HasPrefix (filepath.Join [tmpDir; name]) (filepath.Clean tmpDir ++ "/") = true
    <-> below tmpDir (filepath.Join [tmpDir; name]))) /\
  (resolve tmpDir = [] ->
   strings.HasPrefix (filepath.Join [tmpDir; name]) (filepath.Clean tmpDir ++ "/") = false) /\
  (forall (W : World) (file : zip.File) (rest : list zip.File) (tr : list FsCall),
     zip.Name file = name ->
     (challenge.extract W tmpDir (file :: rest) tr = (tr, Some (invalid_path name))
      <-> strings.HasPrefix (filepath.Join [tmpDir; name]) (filepath.Clean tmpDir ++ "/")
            = false)).
Proof.
  intros Hr. pose proof (resolve_clean_elems tmpDir Hr) as HT.
  destruct (join_rooted tmpDir name Hr) as (P & HP & Hj & HresP).
  assert (Hclean : filepath.Clean tmpDir = filepath.render true (resolve tmpDir)).
  { unfold filepath.Clean. rewrite Hr, HT. reflexivity. }
  split; [|split].
  - intros Hne. split; [apply passed_is_below, Hr|].
    intros (rest & Hrest & Hres). rewrite HresP in Hres. subst P.
    rewrite Hj, Hclean. unfold filepath.render. cbn [String.append strings.HasPrefix].
    rewrite Ascii.eqb_refl, Hres, join_app, join_with_seps by assumption.
    apply has_prefix_app.
  - intros Hnil. destruct (strings.HasPrefix _ _) eqn:Hpre; [|reflexivity].
    apply (passed_is_below tmpDir name Hr) in Hpre as Hbelow.
    exfalso. rewrite Hj, Hclean, Hnil in Hpre. revert Hpre.
    unfold filepath.render. cbn [String.append strings.HasPrefix strings.Join].
    rewrite Ascii.eqb_refl.
    destruct P as [|p P]; cbn; [discriminate|].
    inversion HP as [|? ? Hp _]; subst. apply is_name_inv in Hp as (Hne & _ & _ & Hsep).
    destruct (join_tail p P) as (x & Hjt & _). cbn in Hjt. rewrite Hjt.
    destruct p as [|c p]; [contradiction|]. cbn in *.
    apply orb_false_iff in Hsep as [Hc _]. rewrite Ascii.eqb_sym, Hc. discriminate.
  - intros W file rest tr Hname. split.
    + intros Hrun. destruct (strings.HasPrefix _ _) eqn:Hpre; [|reflexivity].
      exfalso. rewrite <- Hname in Hpre.
      pose proof (extract_passed_calls W tmpDir file rest tr Hpre) as Hlen.
      rewrite Hrun in Hlen. cbn in Hlen. lia.
    + intros Hpre. cbn [challenge.extract]. rewrite Hname, Hpre. reflexivity.
Qed.

Lemma traversal_test_exact_witness :
  strings.HasPrefix (filepath.Join ["/tmp/scenario-push-1"; "src/../Pulumi.yaml"])
    (filepath.Clean "/tmp/scenario-push-1" ++ "/") = true
  <-> below "/tmp/scenario-push-1"
        (filepath.Join ["/tmp/scenario-push-1"; "src/../Pulumi.yaml"]).
Proof.
  apply (proj1 (traversal_test_exact "/tmp/scenario-push-1" "src/../Pulumi.yaml" eq_refl)).
  vm_compute. discriminate.
Defined.

(** * The secret manager service *)

Lemma eqb_empty (s : string) : String.eqb s "" = true <-> s = "".
Proof. apply String.eqb_eq. Qed.


(** A run that was refused at validation, and a run that went past it. *)
Ltac refused :=
  cbn [fst snd];
  split; [split; [tauto|intros _; eexists; split; reflexivity]|];
  split; [reflexivity|]; intros ? _ ?; tauto.
Ltac served :=
  cbn [fst snd];
  split; [split; [|tauto]|split; [tauto|]];
  [ intros (? & Hrun & Hcode);
    first [discriminate Hrun | injection Hrun as <-; discriminate Hcode]
  | intros ? Hrun _; first [discriminate Hrun | injection Hrun as <-; reflexivity] ].

(** X17: each of the four requests that change the cluster fails with
    [InvalidArgument] exactly when a required field is empty, and then
    without a call on the cluster; every other failure, the refusal of
    the call by the cluster among them, is [Internal]. *)
Theorem secret_requests_validated (K : kube.Cluster) :
  (forall req,
     let bad := secrets.DName req = "" \/ secrets.DServer req = "" \/
                secrets.DUsername req = "" \/ secrets.DPassword req = "" in
     let run := secrets.CreateDockerRegistrySecret K req in
     ((exists st, snd run = inr st /\ status.Code st = codes.InvalidArgument) <-> bad) /\
     (bad -> fst run = []) /\
     (forall st, snd run = inr st -> ~ bad -> status.Code st = codes.Internal)) /\
  (forall req,
     let bad := secrets.GName req = "" \/ secrets.GData req = ∅ in
     let run := secrets.CreateGenericSecret K req in
     ((exists st, snd run = inr st /\ status.Code st = codes.InvalidArgument) <-> bad) /\
     (bad -> fst run = []) /\
     (forall st, snd run = inr st -> ~ bad -> status.Code st = codes.Internal)) /\
  (forall req,
     let bad := secrets.TName req = "" \/ secrets.TCert req = "" \/
                secrets.TKey req = "" in
     let run := secrets.CreateTLSSecret K req in
     ((exists st, snd run = inr st /\ status.Code st = codes.InvalidArgument) <-> bad) /\
     (bad -> fst run = []) /\
     (forall st, snd run = inr st -> ~ bad -> status.Code st = codes.Internal)) /\
  (forall req,
     let bad := secrets.XName req = "" in
     let run := secrets.DeleteSecret K req in
     ((exists st, snd run = inr st /\ status.Code st = codes.InvalidArgument) <-> bad) /\
     (bad -> fst run = []) /\
     (forall st, snd run = inr st -> ~ bad -> status.Code st = codes.Internal)).
Proof.
  split; [|split; [|split]]; intros req bad run; subst bad run.
  - unfold secrets.CreateDockerRegistrySecret.
    destruct (_ || _ || _ || _) eqn:Hv.
    { rewrite !orb_true_iff, !eqb_empty in Hv. refused. }
    assert (Hgood : ~ (secrets.DName req = "" \/ secrets.DServer req = "" \/
                       secrets.DUsername req = "" \/ secrets.DPassword req = "")).
    { intros Hbad. apply not_true_iff_false in Hv. apply Hv.
      rewrite !orb_true_iff, !eqb_empty. tauto. }
    destruct (secrets.getKubernetesClient K); [|served].
    destruct (kube.json_Marshal K _); [|served].
    destruct (kube.secrets_Create K _ _ _); served.
  - unfold secrets.CreateGenericSecret.
    destruct (String.eqb_spec (secrets.GName req) "") as [Hname|Hname]; [refused|].
    destruct (Z.eqb_spec (Z.of_nat (size (secrets.GData req))) 0) as [Hsize|Hsize].
    { assert (Hempty : secrets.GData req = ∅) by (apply map_size_empty_iff; lia).
      refused. }
    assert (Hgood : ~ (secrets.GName req = "" \/ secrets.GData req = ∅)).
    { intros [Hbad|Hbad]; [contradiction|]. apply Hsize. rewrite Hbad. reflexivity. }
    destruct (secrets.getKubernetesClient K); [|served].
    destruct (kube.secrets_Create K _ _ _); served.
  - unfold secrets.CreateTLSSecret.
    destruct (_ || _ || _) eqn:Hv.
    { rewrite !orb_true_iff, !eqb_empty in Hv. refused. }
    assert (Hgood : ~ (secrets.TName req = "" \/ secrets.TCert req = "" \/
                       secrets.TKey req = "")).
    { intros Hbad. apply not_true_iff_false in Hv. apply Hv.
      rewrite !orb_true_iff, !eqb_empty. tauto. }
    destruct (secrets.getKubernetesClient K); [|served].
    destruct (kube.secrets_Create K _ _ _); served.
  - unfold secrets.DeleteSecret.
    destruct (String.eqb_spec (secrets.XName req) "") as [Hname|Hname]; [refused|].
    destruct (secrets.getKubernetesClient K); [|served].
    destruct (kube.secrets_Delete K _ _ _); served.
Qed.



(** X19: what the secrets hold. A registry secret holds, under
    [.dockerconfigjson], the encoding of the configuration of the
    request; a generic secret holds the entries of the request, all of
    them and no other; a TLS secret holds the certificate under [tls.crt]
    and the key under [tls.key], and nothing else. *)
Theorem secrets_payload (K : kube.Cluster) :
  (forall req ns secret,
     fst (secrets.CreateDockerRegistrySecret K req) = [kube.Create ns secret] ->
     exists json,
       kube.json_Marshal K (docker_config K req) = Ok json /\
       kube.Data secret = {[".dockerconfigjson" := json]}) /\
  (forall req ns secret,
     fst (secrets.CreateGenericSecret K req) = [kube.Create ns secret] ->
     kube.Data secret = secrets.GData req /\ secrets.GData req <> ∅) /\
  (forall req ns secret,
     fst (secrets.CreateTLSSecret K req) = [kube.Create ns secret] ->
     kube.Data secret !! "tls.crt" = Some (secrets.TCert req) /\
     kube.Data secret !! "tls.key" = Some (secrets.TKey req) /\
     (forall k, k <> "tls.crt" -> k <> "tls.key" -> kube.Data secret !! k = None) /\
     secrets.TCert req <> "" /\ secrets.TKey req <> "").
Proof.
  split; [|split]; intros req ns secret.
  - unfold secrets.CreateDockerRegistrySecret. fold (docker_config K req).
    destruct (_ || _ || _ || _); [discriminate|].
    destruct (secrets.getKubernetesClient K); [|discriminate].
    destruct (kube.json_Marshal K _) as [json|]; [|discriminate].
    intros Hcall. exists json. split; [reflexivity|].
    destruct (kube.secrets_Create K _ _ _); injection Hcall as _ <-; reflexivity.
  - unfold secrets.CreateGenericSecret.
    destruct (String.eqb _ _); [discriminate|].
    destruct (Z.eqb_spec (Z.of_nat (size (secrets.GData req))) 0) as [|Hsize]; [discriminate|].
    destruct (secrets.getKubernetesClient K); [|discriminate].
    intros Hcall. split.
    + destruct (kube.secrets_Create K _ _ _); injection Hcall as _ <-; cbn;
        rewrite copy_into_union; apply (right_id_L ∅ (∪)).
    + intros Hempty. apply Hsize. rewrite Hempty, map_size_empty. reflexivity.
  - unfold secrets.CreateTLSSecret.
    destruct (_ || _ || _) eqn:Hv; [discriminate|].
    destruct (secrets.getKubernetesClient K); [|discriminate].
    intros Hcall.
    assert (Hdata : kube.Data secret
                    = <["tls.key" := secrets.TKey req]> {["tls.crt" := secrets.TCert req]}).
    { destruct (kube.secrets_Create K _ _ _); injection Hcall as _ <-; reflexivity. }
    rewrite Hdata. apply orb_false_iff in Hv as [Hv Hk].
    apply orb_false_iff in Hv as [_ Hc].
    apply String.eqb_neq in Hk, Hc.
    split; [|split; [|split; [|split; assumption]]].
    + rewrite lookup_insert_ne by discriminate. apply lookup_singleton_eq.
    + apply lookup_insert_eq.
    + intros k H1 H2.
      rewrite lookup_insert_ne by congruence. apply lookup_singleton_ne. congruence.
Qed.

Lemma secrets_payload_witness :
  exists secret,
    fst (secrets.CreateTLSSecret sample_cluster sample_tls) = [kube.Create "ctf" secret] /\
    kube.Data secret !! "tls.crt" = Some "CERT".
Proof.
  eexists. split; [reflexivity|].
  apply (proj2 (proj2 (secrets_payload sample_cluster)) sample_tls "ctf"). reflexivity.
Defined.

(** X20: a creation or a deletion answers with success only when the
    client could be made and the cluster accepted the one call made for
    it; the answer to a creation describes the secret as the cluster
    returned it. The data keys of the answer are those of the secret
    sent: fixed for a registry and a TLS secret, and for a generic secret
    the keys of the request in the order a [range] loop visits them. *)
Theorem secret_answers (K : kube.Cluster) :
  (forall req calls info,
     secrets.CreateDockerRegistrySecret K req = (calls, inl info) ->
     exists client secret created,
       secrets.getKubernetesClient K = Ok client /\
       calls = [kube.Create (secrets.getNamespace K (secrets.DNamespace req)) secret] /\
       kube.secrets_Create K client (secrets.getNamespace K (secrets.DNamespace req)) secret
         = Ok created /\
       info = secrets.describe created [".dockerconfigjson"]) /\
  (forall req calls info,
     secrets.CreateGenericSecret K req = (calls, inl info) ->
     exists client secret created,
       secrets.getKubernetesClient K = Ok client /\
       calls = [kube.Create (secrets.getNamespace K (secrets.GNamespace req)) secret] /\
       kube.secrets_Create K client (secrets.getNamespace K (secrets.GNamespace req)) secret
         = Ok created /\
       info = secrets.describe created (kube.range_keys K (secrets.GData req)) /\
       (kube.range_keys K (secrets.GData req) ≡ₚ (map_to_list (secrets.GData req)).*1 ->
        secrets.DataKeys info ≡ₚ (map_to_list (kube.Data secret)).*1 /\
        NoDup (secrets.DataKeys info) /\
        forall k, k ∈ secrets.DataKeys info <-> is_Some (secrets.GData req !! k))) /\
  (forall req calls info,
     secrets.CreateTLSSecret K req = (calls, inl info) ->
     exists client secret created,
       secrets.getKubernetesClient K = Ok client /\
       calls = [kube.Create (secrets.getNamespace K (secrets.TNamespace req)) secret] /\
       kube.secrets_Create K client (secrets.getNamespace K (secrets.TNamespace req)) secret
         = Ok created /\
       info = secrets.describe created ["tls.crt"; "tls.key"]) /\
  (forall req calls,
     secrets.DeleteSecret K req = (calls, inl tt) ->
     exists client,
       secrets.getKubernetesClient K = Ok client /\
       secrets.XName req <> "" /\
       calls = [kube.Delete (secrets.getNamespace K (secrets.XNamespace req))
                  (secrets.XName req)] /\
       kube.secrets_Delete K client (secrets.getNamespace K (secrets.XNamespace req))
         (secrets.XName req) = None).
Proof.
  split; [|split; [|split]].
  - intros req calls info. unfold secrets.CreateDockerRegistrySecret.
    destruct (_ || _ || _ || _); [discriminate|].
    destruct (secrets.getKubernetesClient K) as [client|]; [|discriminate].
    destruct (kube.json_Marshal K _); [|discriminate].
    destruct (kube.secrets_Create K _ _ _) as [created|] eqn:Hc; [|discriminate].
    intros [= <- <-]. eauto 10.
  - intros req calls info. unfold secrets.CreateGenericSecret.
    destruct (String.eqb _ _); [discriminate|].
    destruct (_ =? 0)%Z; [discriminate|].
    destruct (secrets.getKubernetesClient K) as [client|]; [|discriminate].
    destruct (kube.secrets_Create K _ _ _) as [created|] eqn:Hc; [|discriminate].
    intros [= <- <-]. do 3 eexists. split; [reflexivity|]. split; [reflexivity|].
    split; [exact Hc|]. split; [reflexivity|]. cbn [secrets.DataKeys secrets.describe kube.Data].
    intros Hperm. rewrite copy_into_union, (right_id_L ∅ (∪)).
    split; [exact Hperm|]. split.
    + rewrite Hperm. apply NoDup_fst_map_to_list.
    + intros k. rewrite Hperm, list_elem_of_fmap. split.
      * intros ([k' v] & -> & Hin). apply elem_of_map_to_list in Hin. eauto.
      * intros (v & Hv). exists (k, v). split; [reflexivity|].
        apply elem_of_map_to_list. exact Hv.
  - intros req calls info. unfold secrets.CreateTLSSecret.
    destruct (_ || _ || _); [discriminate|].
    destruct (secrets.getKubernetesClient K) as [client|]; [|discriminate].
    destruct (kube.secrets_Create K _ _ _) as [created|] eqn:Hc; [|discriminate].
    intros [= <- <-]. eauto 10.
  - intros req calls. unfold secrets.DeleteSecret.
    destruct (String.eqb_spec (secrets.XName req) ""); [discriminate|].
    destruct (secrets.getKubernetesClient K) as [client|]; [|discriminate].
    destruct (kube.secrets_Delete K _ _ _) eqn:Hd; [discriminate|].
    intros [= <-]. eauto 10.
Qed.

Lemma secret_answers_witness :
  exists info,
    secrets.CreateGenericSecret sample_cluster sample_generic
      = ([kube.Create "chall-manager"
            {| kube.Name := "api-token"; kube.Namespace := "chall-manager";
               kube.Type_ := "Opaque"; kube.Labels := secrets.managed_labels "generic";
               kube.Data := <["token" := "s3cr3t"]> {["user" := "ctf"]};
               kube.CreationTimestamp := 0 |}], inl info) /\
    forall k, k ∈ secrets.DataKeys info <-> is_Some (secrets.GData sample_generic !! k).
Proof.
  eexists. split; [vm_compute; reflexivity|].
  destruct (proj1 (proj2 (secret_answers sample_cluster)) sample_generic _ _ eq_refl)
    as (client & secret & created & _ & _ & _ & Hinfo & Hkeys).
  destruct (Hkeys (Permutation_refl _)) as (_ & _ & Hin).
  exact Hin.
Defined.

(** X21: [ListSecrets] makes at most one call, a listing of the
    namespace the request is served in; every failure is [Internal]; a
    success answers with one message per secret of the listing, in its
    order, that repeats the name, the type, the namespace and the
    creation time of the secret, and never names a challenge as user of
    the secret. *)
Theorem list_secrets_answers (K : kube.Cluster) (reqNamespace : string) :
  (fst (secrets.ListSecrets K reqNamespace) = [] \/
   fst (secrets.ListSecrets K reqNamespace)
     = [kube.List (secrets.getNamespace K reqNamespace)]) /\
  (forall st,
     snd (secrets.ListSecrets K reqNamespace) = inr st ->
     status.Code st = codes.Internal) /\
  (forall infos,
     snd (secrets.ListSecrets K reqNamespace) = inl infos ->
     exists client items,
       secrets.getKubernetesClient K = Ok client /\
       kube.secrets_List K client (secrets.getNamespace K reqNamespace) = Ok items /\
       length infos = length items /\
       forall i info,
         infos !! i = Some info ->
         exists s,
           items !! i = Some s /\
           secrets.Name info = kube.Name s /\
           secrets.Type_ info = kube.Type_ s /\
           secrets.Namespace info = kube.Namespace s /\
           secrets.CreatedAt info = kube.CreationTimestamp s /\
           secrets.DataKeys info = kube.range_keys K (kube.Data s) /\
           secrets.UsedByChallenges info = []).
Proof.
  unfold secrets.ListSecrets.
  destruct (secrets.getKubernetesClient K) as [client|]; cbn [fst snd].
  2:{ split; [left; reflexivity|]. split; [intros st [= <-]; reflexivity|discriminate]. }
  destruct (kube.secrets_List K client _) as [items|] eqn:Hlist; cbn [fst snd].
  2:{ split; [right; reflexivity|]. split; [intros st [= <-]; reflexivity|discriminate]. }
  split; [right; reflexivity|]. split; [discriminate|].
  intros infos [= <-]. exists client, items. split; [reflexivity|]. split; [exact Hlist|].
  split; [apply length_map|].
  intros i info Hi. rewrite list_lookup_fmap in Hi.
  destruct (items !! i) as [s|]; [|discriminate]. injection Hi as <-.
  exists s. repeat split.
Qed.

(** X22: [TestRegistryConnection] returns an error exactly when the
    server, the user name or the password is empty. Otherwise it answers:
    without success exactly when the request could not be made or sent;
    as authenticated exactly when the registry answered with status 200;
    and with success for every status the registry answers with, 401 and
    500 among them. *)
Theorem registry_test_answers (K : kube.Cluster)
    (req : secrets.TestRegistryConnectionRequest) :
  ((secrets.RServer req = "" \/ secrets.RUsername req = "" \/ secrets.RPassword req = "") <->
   exists st, secrets.TestRegistryConnection K req = inr st) /\
  (forall st, secrets.TestRegistryConnection K req = inr st ->
              status.Code st = codes.InvalidArgument) /\
  (forall resp,
     secrets.TestRegistryConnection K req = inl resp ->
     (secrets.Success resp = true <-> exists code, registry_answered K req code) /\
     (secrets.Authenticated resp = true <-> registry_answered K req 200)).
Proof.
  destruct (String.eqb (secrets.RServer req) "" || String.eqb (secrets.RUsername req) ""
            || String.eqb (secrets.RPassword req) "") eqn:Hv.
  { unfold secrets.TestRegistryConnection. rewrite Hv.
    rewrite !orb_true_iff, !eqb_empty in Hv.
    split; [split; [eauto|tauto]|]. split; [intros st [= <-]; reflexivity|discriminate]. }
  assert (Hshape : exists resp,
            secrets.TestRegistryConnection K req = inl resp /\
            (secrets.Success resp = true <-> exists code, registry_answered K req code) /\
            (secrets.Authenticated resp = true <-> registry_answered K req 200)).
  { unfold secrets.TestRegistryConnection, registry_answered. rewrite Hv.
    fold (registry_url req). fold (registry_auth K req).
    destruct (kube.http_NewRequest K (registry_url req)) as [err|].
    { eexists. split; [reflexivity|]. cbn. split; split; try discriminate.
      - intros (code & Hreq & _). discriminate.
      - intros (Hreq & _). discriminate. }
    destruct (kube.http_Do K (registry_url req) (registry_auth K req)) as [code|err].
    2:{ eexists. split; [reflexivity|]. cbn. split; split; try discriminate.
        - intros (code & _ & Hdo). discriminate.
        - intros (_ & Hdo). discriminate. }
    destruct (Z.eqb_spec code 200) as [->|Hne]; cbn [orb].
    { eexists. split; [reflexivity|]. cbn. split; split; eauto. }
    assert (Hno : ~ (@None error = None /\ Ok code = @Ok Z 200%Z)).
    { intros (_ & [= Hc]). contradiction. }
    destruct (code =? 401)%Z; eexists; (split; [reflexivity|]); cbn.
    - replace (code =? 200)%Z with false by (symmetry; apply Z.eqb_neq, Hne).
      split; split; eauto; try discriminate; try (intros H; contradiction).
    - split; split; eauto; try discriminate; try (intros H; contradiction). }
  destruct Hshape as (resp & Hrun & Hsucc & Hauth). rewrite Hrun.
  rewrite !orb_false_iff in Hv. destruct Hv as [[H1 H2] H3].
  apply String.eqb_neq in H1, H2, H3.
  split; [split; [tauto|intros [st Hst]; discriminate]|].
  split; [discriminate|]. intros resp' [= <-]. split; assumption.
Qed.

Lemma registry_test_answers_witness :
  exists resp,
    secrets.TestRegistryConnection sample_cluster sample_registry = inl resp /\
    secrets.Success resp = true /\ secrets.Authenticated resp = false.
Proof.
  eexists. split; [reflexivity|]. split.
  - apply (proj1 (proj2 (proj2 (registry_test_answers sample_cluster sample_registry))
                    _ eq_refl)).
    exists 401%Z. split; reflexivity.
  - reflexivity.
Defined.

(** ** The host of the cluster client *)

Lemma has_prefix_iff (s pre : string) :
  strings.HasPrefix s pre = true <-> exists post, s = pre ++ post.
Proof.
  revert s. induction pre as [|a pre IH]; intros s; cbn.
  - split; [intros _; exists s; reflexivity|reflexivity].
  - destruct s as [|b s].
    + split; [discriminate|intros (post & [=])].
    + destruct (Ascii.eqb_spec a b) as [->|Hne].
      * rewrite IH. split; intros (post & Hs); exists post; congruence.
      * split; [discriminate|]. intros (post & [= ? _]). congruence.
Qed.

Lemma skip_app (pre post : string) : strs.skip (String.length pre) (pre ++ post) = post.
Proof. induction pre as [|a pre IH]; cbn; [destruct post; reflexivity|exact IH]. Qed.

Lemma replace_first_absent (s old new : string) :
  strs.Contains s old = false -> strs.ReplaceFirst s old new = s.
Proof.
  induction s as [|c s IH]; cbn; intros Hno; apply orb_false_iff in Hno as [Hpre Hrest];
    rewrite Hpre; [reflexivity|]. rewrite (IH Hrest). reflexivity.
Qed.

(** The leftmost occurrence is the one replaced. *)
Lemma replace_first_present (s old new : string) :
  strs.Contains s old = true ->
  exists pre post,
    s = pre ++ old ++ post /\
    strs.ReplaceFirst s old new = pre ++ new ++ post /\
    forall pre' post', s = pre' ++ old ++ post' ->
                       (String.length pre <= String.length pre')%nat.
Proof.
  induction s as [|c s IH]; intros Hin.
  - cbn in Hin. rewrite orb_false_r in Hin.
    apply has_prefix_iff in Hin as Hpost. destruct Hpost as (post & Hs).
    exists "", post. cbn. rewrite Hin. split; [exact Hs|].
    split; [|intros; cbn; lia]. rewrite Hs at 1. rewrite skip_app. reflexivity.
  - cbn [strs.Contains strs.ReplaceFirst] in *.
    destruct (strings.HasPrefix (String c s) old) eqn:Hpre.
    + apply has_prefix_iff in Hpre as (post & Hs).
      exists "", post. cbn [String.append]. split; [exact Hs|].
      split; [|intros; cbn; lia]. rewrite Hs at 1. rewrite skip_app. reflexivity.
    + cbn in Hin. destruct (IH Hin) as (pre & post & Hs & Hrep & Hmin).
      exists (String c pre), post. cbn [String.append]. rewrite Hrep.
      split; [congruence|]. split; [reflexivity|].
      intros pre' post' Hs'. destruct pre' as [|c' pre'].
      * exfalso. cbn in Hs'.
        assert (Hp : strings.HasPrefix (String c s) old = true)
          by (apply has_prefix_iff; eauto).
        congruence.
      * cbn in Hs'. injection Hs' as _ Hs'. cbn. apply le_n_S, (Hmin pre' post'), Hs'.
Qed.

(** X23: the client of the service is made for the in-cluster
    configuration when there is one, else for the kubeconfig named by
    [KUBECONFIG] or, without it, the one of the home directory. Its host
    is the one of that configuration, but for the leftmost [://0.0.0.0:]
    in it, which is replaced by [://127.0.0.1:]. *)
Theorem kube_client_host (K : kube.Cluster) (client : kube.Config) :
  secrets.getKubernetesClient K = Ok client ->
  exists config,
    (kube.rest_InClusterConfig K = Ok config \/
     (exists e, kube.rest_InClusterConfig K = Err e) /\
     kube.clientcmd_BuildConfigFromFlags K (kubeconfig_path K) = Ok config) /\
    kube.kubernetes_NewForConfig K client = None /\
    (strs.Contains (kube.Host config) "://0.0.0.0:" = false -> client = config) /\
    (strs.Contains (kube.Host config) "://0.0.0.0:" = true ->
     exists pre post,
       kube.Host config = pre ++ "://0.0.0.0:" ++ post /\
       kube.Host client = pre ++ "://127.0.0.1:" ++ post /\
       forall pre' post',
         kube.Host config = pre' ++ "://0.0.0.0:" ++ post' ->
         (String.length pre <= String.length pre')%nat).
Proof.
  unfold secrets.getKubernetesClient. fold (kubeconfig_path K).
  destruct (kube.rest_InClusterConfig K) as [config|e0] eqn:Hin.
  - cbn. intros Hnew. exists config. split; [left; reflexivity|].
    destruct (strs.Contains (kube.Host config) "://0.0.0.0:") eqn:Hc.
    + destruct (kube.kubernetes_NewForConfig K _) eqn:Hk; [discriminate|].
      injection Hnew as <-. split; [exact Hk|]. split; [discriminate|]. intros _.
      destruct (replace_first_present _ _ "://127.0.0.1:" Hc) as (pre & post & H1 & H2 & H3).
      exists pre, post. cbn [kube.Host]. auto.
    + destruct (kube.kubernetes_NewForConfig K _) eqn:Hk; [discriminate|].
      injection Hnew as <-. split; [exact Hk|]. split; [reflexivity|discriminate].
  - destruct (kube.clientcmd_BuildConfigFromFlags K (kubeconfig_path K)) as [config|e1] eqn:Hb;
      cbn; [|discriminate].
    intros Hnew. exists config. split; [right; eauto|].
    destruct (strs.Contains (kube.Host config) "://0.0.0.0:") eqn:Hc.
    + destruct (kube.kubernetes_NewForConfig K _) eqn:Hk; [discriminate|].
      injection Hnew as <-. split; [exact Hk|]. split; [discriminate|]. intros _.
      destruct (replace_first_present _ _ "://127.0.0.1:" Hc) as (pre & post & H1 & H2 & H3).
      exists pre, post. cbn [kube.Host]. auto.
    + destruct (kube.kubernetes_NewForConfig K _) eqn:Hk; [discriminate|].
      injection Hnew as <-. split; [exact Hk|]. split; [reflexivity|discriminate].
Qed.

Lemma kube_client_host_witness :
  secrets.getKubernetesClient sample_cluster = Ok {| kube.Host := "https://127.0.0.1:6443" |} /\
  kube.kubernetes_NewForConfig sample_cluster {| kube.Host := "https://127.0.0.1:6443" |} = None.
Proof.
  split; [reflexivity|].
  destruct (kube_client_host sample_cluster {| kube.Host := "https://127.0.0.1:6443" |} eq_refl)
    as (config & _ & Hnew & _).
  exact Hnew.
Defined.

(** * Import of a stored state *)

(** X24: [Import] hands the engine at most one deployment, of version 3,
    whose body is the encoding of the state of the record, and returns
    what the engine answers; when the state cannot be encoded the engine
    is not called. After an [Export] without error the state encoded is
    the deployment that [Export] took from the engine. *)
Theorem import_hands_exported_state (E : state.Engine) (W : World) (stack : iac.Stack)
    (res : option iac.Result) (ist ist' : fsapi.Instance) :
  iac.Export W stack res ist = Returned (Ok ist') ->
  exists udp,
    stack_Export W (iac.pas stack) = Ok udp /\
    fsapi.State ist' = Some (auto.Deployment udp) /\
    (forall err,
       state.json_Marshal_state E (Some (auto.Deployment udp)) = Err err ->
       state.Import E stack ist' = ([], Some err)) /\
    (forall s,
       state.json_Marshal_state E (Some (auto.Deployment udp)) = Ok s ->
       state.Import E stack ist'
       = ([{| auto.Version := 3; auto.Deployment := s |}],
          state.stack_Import E (iac.pas stack) {| auto.Version := 3; auto.Deployment := s |})).
Proof.
  intros Hok.
  apply export_ok_inv in Hok as (udp & outputs & coninfo & ci & flags & Hudp & _ & _ & _ & ->).
  exists udp. split; [exact Hudp|]. split; [reflexivity|].
  unfold state.Import. cbn [fsapi.State exported].
  split; [intros err ->|intros s ->]; reflexivity.
Qed.

Lemma import_hands_exported_state_witness :
  exists udp,
    stack_Export Sample.world (iac.pas Sample.stack) = Ok udp /\
    auto.Deployment udp = "{}".
Proof.
  destruct (import_hands_exported_state
              {| state.json_Marshal_state := fun s => Ok (default "null" s);
                 state.stack_Import := fun _ _ => None |}
              Sample.world Sample.stack (Sample.result_of Sample.outputs) Sample.ist
              (exported Sample.ist "{}" "nc 127.0.0.1 31000" ["FLAG{a}"; "FLAG{b}"; "FLAG{c}"])
              eq_refl) as (udp & Hudp & Hstate & _).
  exists udp. split; [exact Hudp|]. cbn in Hstate. injection Hstate as <-. reflexivity.
Defined.

(** * Division of resource quantities *)

(** The examples of the documentation of [divideResource], and some
    quantities it leaves or bends. *)
Example divide_resource_examples :
  kubernetes.divideResource "500m" 6 = "83m" /\
  kubernetes.divideResource "256Mi" 6 = "42Mi" /\
  kubernetes.divideResource "1" 6 = "166m" /\
  kubernetes.divideResource "0m" 4 = "1m" /\
  kubernetes.divideResource "-2" 1 = "1m" /\
  kubernetes.divideResource "1.5Gi" 2 = "1.5Gi" /\
  kubernetes.divideResource "2G" 2 = "2G" /\
  kubernetes.divideResource "250m" 0 = "250m" /\
  strconv.Atoi "+007" = Some 7%Z /\
  strconv.Atoi "9223372036854775808" = None /\
  strconv.Atoi "-9223372036854775808" = Some (- 9223372036854775808)%Z /\
  strconv.Itoa (- 9223372036854775808) = "-9223372036854775808" /\
  strconv.Atoi "-" = None /\ strconv.Atoi "1_000" = None.
Proof. repeat split. Qed.

(** ** Writing and reading integers *)

Lemma digit_value_char (d : Z) :
  (0 <= d < 10)%Z -> strconv.digit_value (strconv.digit_char d) = Some d.
Proof.
  intros Hd.
  assert (H : (d = 0 \/ d = 1 \/ d = 2 \/ d = 3 \/ d = 4 \/ d = 5 \/ d = 6 \/ d = 7
               \/ d = 8 \/ d = 9)%Z) by lia.
  repeat (destruct H as [-> | H]; [reflexivity|]). subst. reflexivity.
Qed.

Lemma digits_utoa (fuel : nat) (n : Z) (acc : string) :
  (0 <= n < 10 ^ Z.of_nat fuel)%Z ->
  strconv.digits (strconv.utoa fuel n acc) 0 = strconv.digits acc n.
Proof.
  revert n acc. induction fuel as [|fuel IH]; intros n acc Hn.
  - cbn in *. replace n with 0%Z by lia. reflexivity.
  - cbn [strconv.utoa]. destruct (Z.ltb_spec n 10) as [Hsmall|Hbig].
    + cbn [strconv.digits]. rewrite digit_value_char by (apply Z.mod_pos_bound; lia).
      rewrite Z.mod_small by lia. reflexivity.
    + rewrite IH.
      * cbn [strconv.digits]. rewrite digit_value_char by (apply Z.mod_pos_bound; lia).
        f_equal. pose proof (Z.div_mod n 10 ltac:(lia)). lia.
      * rewrite Nat2Z.inj_succ, Z.pow_succ_r in Hn by lia. split.
        -- apply Z.div_pos; lia.
        -- apply Z.div_lt_upper_bound; lia.
Qed.

(** The writing of a number starts with a digit. *)
Lemma utoa_head (fuel : nat) (n : Z) (acc : string) :
  (0 <= n)%Z ->
  exists d rest,
    strconv.utoa (S fuel) n acc = String (strconv.digit_char d) rest /\ (0 <= d < 10)%Z.
Proof.
  revert n acc. induction fuel as [|fuel IH]; intros n acc Hn.
  - cbn. exists (n mod 10)%Z. destruct (n <? 10)%Z; eexists; (split; [reflexivity|]);
      apply Z.mod_pos_bound; lia.
  - cbn [strconv.utoa]. destruct (n <? 10)%Z.
    + do 2 eexists. split; [reflexivity|]. apply Z.mod_pos_bound. lia.
    + apply (IH (n / 10)%Z). apply Z.div_pos; lia.
Qed.

Lemma digit_char_not_sign (d : Z) :
  (0 <= d < 10)%Z ->
  Ascii.eqb (strconv.digit_char d) "-" = false /\
  Ascii.eqb (strconv.digit_char d) "+" = false.
Proof.
  intros Hd.
  assert (H : (d = 0 \/ d = 1 \/ d = 2 \/ d = 3 \/ d = 4 \/ d = 5 \/ d = 6 \/ d = 7
               \/ d = 8 \/ d = 9)%Z) by lia.
  repeat (destruct H as [-> | H]; [split; reflexivity|]). subst. split; reflexivity.
Qed.

(** Reading back what [Itoa] wrote gives the number. *)
Lemma atoi_itoa (n : Z) :
  (- 2 ^ 63 <= n < 2 ^ 63)%Z -> strconv.Atoi (strconv.Itoa n) = Some n.
Proof.
  intros Hn. unfold strconv.Itoa. destruct (Z.ltb_spec n 0) as [Hneg|Hpos].
  - unfold strconv.Atoi. change (Ascii.eqb "-" "-") with true. cbn [orb].
    destruct (utoa_head 19 (- n) "" ltac:(lia)) as (d & rest & Hhead & Hd).
    pose proof (digits_utoa 20 (- n) "" ltac:(lia)) as Hdigits.
    rewrite Hhead in *. change (String.eqb (String (strconv.digit_char d) rest) "") with false.
    cbv iota. rewrite Hdigits. cbn [strconv.digits]. rewrite Z.opp_involutive.
    replace ((- 2 ^ 63 <=? n)%Z && (n <? 2 ^ 63)%Z) with true; [reflexivity|].
    symmetry. apply andb_true_iff. split; [apply Z.leb_le|apply Z.ltb_lt]; lia.
  - destruct (utoa_head 19 n "" ltac:(lia)) as (d & rest & Hhead & Hd).
    pose proof (digits_utoa 20 n "" ltac:(lia)) as Hdigits.
    rewrite Hhead in *. unfold strconv.Atoi.
    destruct (digit_char_not_sign d Hd) as [-> ->]. cbn [orb].
    change (String.eqb (String (strconv.digit_char d) rest) "") with false.
    cbv iota. rewrite Hdigits. cbn [strconv.digits].
    replace ((- 2 ^ 63 <=? n)%Z && (n <? 2 ^ 63)%Z) with true; [reflexivity|].
    symmetry. apply andb_true_iff. split; [apply Z.leb_le|apply Z.ltb_lt]; lia.
Qed.

(** ** Ends of strings *)

Lemma string_length_app (a b : string) :
  String.length (a ++ b) = (String.length a + String.length b)%nat.
Proof. induction a as [|c a IH]; cbn; [reflexivity|]. rewrite IH. reflexivity. Qed.

Lemma skip_app_plus (a b : string) (k : nat) :
  strs.skip (String.length a + k) (a ++ b) = strs.skip k b.
Proof. induction a as [|c a IH]; cbn; [reflexivity|exact IH]. Qed.

Lemma keep_app (a b : string) : kubernetes.keep (String.length a) (a ++ b) = a.
Proof.
  induction a as [|c a IH]; cbn; [destruct b; reflexivity|]. rewrite IH. reflexivity.
Qed.

Lemma keep_skip (k : nat) (s : string) : kubernetes.keep k s ++ strs.skip k s = s.
Proof.
  revert s. induction k as [|k IH]; intros s; [destruct s; reflexivity|].
  destruct s as [|c s]; cbn; [reflexivity|]. rewrite IH. reflexivity.
Qed.

(** The test for a suffix on a string that ends with a suffix at least as
    long. *)
Lemma has_suffix_within (a suf suf' : string) :
  a <> "" ->
  (String.length suf' <= String.length suf)%nat ->
  kubernetes.has_suffix (a ++ suf) suf'
  = String.eqb (strs.skip (String.length suf - String.length suf') suf) suf'.
Proof.
  intros Ha Hlen. unfold kubernetes.has_suffix. rewrite string_length_app.
  assert (0 < String.length a)%nat by (destruct a; [contradiction|cbn; lia]).
  replace (String.length suf' <? String.length a + String.length suf)%nat with true
    by (symmetry; apply Nat.ltb_lt; lia).
  replace (String.length a + String.length suf - String.length suf')%nat
    with (String.length a + (String.length suf - String.length suf'))%nat by lia.
  rewrite skip_app_plus. reflexivity.
Qed.

Lemma trim_app (a suf : string) : kubernetes.trim (a ++ suf) (String.length suf) = a.
Proof.
  unfold kubernetes.trim. rewrite string_length_app.
  replace (String.length a + String.length suf - String.length suf)%nat
    with (String.length a) by lia.
  apply keep_app.
Qed.

Lemma has_suffix_inv (s suf : string) :
  kubernetes.has_suffix s suf = true ->
  s = kubernetes.trim s (String.length suf) ++ suf.
Proof.
  unfold kubernetes.has_suffix, kubernetes.trim. intros Hs.
  apply andb_true_iff in Hs as [_ Hs]. apply String.eqb_eq in Hs.
  transitivity (kubernetes.keep (String.length s - String.length suf) s
                ++ strs.skip (String.length s - String.length suf) s).
  - symmetry. apply keep_skip.
  - rewrite Hs. reflexivity.
Qed.

Lemma itoa_not_empty (n : Z) : strconv.Itoa n <> "".
Proof.
  unfold strconv.Itoa. destruct (Z.ltb_spec n 0); [discriminate|].
  destruct (utoa_head 19 n "" ltac:(lia)) as (d & rest & -> & _). discriminate.
Qed.

Lemma has_dot_app (a b : string) : has_dot (a ++ b) = has_dot a || has_dot b.
Proof. induction a as [|c a IH]; cbn; [reflexivity|]. rewrite IH. apply orb_assoc. Qed.

Lemma digits_no_dot (s : string) (n v : Z) :
  strconv.digits s n = Some v -> has_dot s = false.
Proof.
  revert n. induction s as [|c s IH]; intros n; cbn; [reflexivity|].
  destruct (Ascii.eqb_spec c ".") as [->|_]; [discriminate|].
  destruct (strconv.digit_value c); [apply IH|discriminate].
Qed.

(** A text with a decimal point is no integer. *)
Lemma atoi_dot (s : string) : has_dot s = true -> strconv.Atoi s = None.
Proof.
  intros Hdot. destruct (strconv.Atoi s) as [v|] eqn:Hatoi; [|reflexivity].
  exfalso. unfold strconv.Atoi in Hatoi. destruct s as [|c rest]; [discriminate|].
  cbn in Hdot.
  destruct (Ascii.eqb c "-" || Ascii.eqb c "+") eqn:Hsign.
  - assert (Hc : Ascii.eqb c "." = false).
    { apply orb_true_iff in Hsign as [H | H]; apply Ascii.eqb_eq in H; subst; reflexivity. }
    rewrite Hc in Hdot. cbn in Hdot.
    destruct (String.eqb rest ""); [discriminate|].
    destruct (strconv.digits rest 0) as [n|] eqn:Hd; [|discriminate].
    apply digits_no_dot in Hd. congruence.
  - destruct (String.eqb (String c rest) ""); [discriminate|].
    destruct (strconv.digits (String c rest) 0) as [n|] eqn:Hd; [|discriminate].
    apply digits_no_dot in Hd. cbn in Hd. congruence.
Qed.

Lemma trim_keeps_dot (s suf : string) :
  has_dot s = true -> has_dot suf = false ->
  kubernetes.has_suffix s suf = true ->
  strconv.Atoi (kubernetes.trim s (String.length suf)) = None.
Proof.
  intros Hs Hsuf Hend. apply atoi_dot. apply has_suffix_inv in Hend.
  rewrite Hend, has_dot_app, Hsuf, orb_false_r in Hs. exact Hs.
Qed.

(** X25: [divideResource] returns the quantity as it is when the quantity
    is empty, when the divisor is not positive, and when the quantity
    holds a decimal point, whatever its unit: a fractional quantity is
    not divided. *)
Theorem divide_resource_unchanged (resource : string) (divisor : Z) :
  resource = "" \/ (divisor <= 0)%Z \/ has_dot resource = true ->
  kubernetes.divideResource resource divisor = resource.
Proof.
  intros Hcase. unfold kubernetes.divideResource.
  destruct (String.eqb_spec resource "") as [|Hne]; [reflexivity|].
  destruct (Z.leb_spec divisor 0) as [|Hpos]; [reflexivity|].
  destruct Hcase as [? | [? | Hdot]]; [contradiction|lia|]. cbn [orb].
  assert (Hm : (if kubernetes.has_suffix resource "m"
                then strconv.Atoi (kubernetes.trim resource 1) else None) = None).
  { destruct (kubernetes.has_suffix resource "m") eqn:Hend; [|reflexivity].
    apply (trim_keeps_dot resource "m"); auto. }
  rewrite Hm.
  assert (Hmem : forall sufs,
            Forall (fun suf => has_dot suf = false) sufs ->
            kubernetes.divide_memory resource divisor sufs = None).
  { induction 1 as [|suf sufs Hsuf _ IH]; [reflexivity|]. cbn [kubernetes.divide_memory].
    destruct (kubernetes.has_suffix resource suf) eqn:Hend; [|exact IH].
    rewrite (trim_keeps_dot resource suf Hdot Hsuf Hend). exact IH. }
  rewrite Hmem by (repeat constructor). rewrite (atoi_dot resource Hdot). reflexivity.
Qed.

Lemma divide_resource_unchanged_witness :
  kubernetes.divideResource "1.5Gi" 2 = "1.5Gi".
Proof. apply divide_resource_unchanged. right. right. reflexivity. Defined.

Lemma app_not_empty (a b : string) : a <> "" -> String.eqb (a ++ b) "" = false.
Proof. destruct a; [contradiction|reflexivity]. Qed.

(** The loop over the suffixes on an integer followed by one of them. *)
Lemma divide_memory_hit (a suf : string) (v divisor : Z) (sufs : list string) :
  a <> "" ->
  strconv.Atoi a = Some v ->
  suf ∈ sufs ->
  Forall (fun s => String.length s = String.length suf) sufs ->
  kubernetes.divide_memory (a ++ suf) divisor sufs
  = Some (strconv.Itoa (kubernetes.scaled v divisor) ++ suf).
Proof.
  intros Ha Hv Hin Hlen. induction Hlen as [|s sufs Hs _ IH]; [inversion Hin|].
  cbn [kubernetes.divide_memory].
  rewrite has_suffix_within by (auto; lia). rewrite Hs, Nat.sub_diag. cbn [strs.skip].
  destruct (String.eqb_spec suf s) as [<-|Hne].
  - rewrite trim_app, Hv. reflexivity.
  - apply IH. apply elem_of_cons in Hin as [-> | Hin]; [contradiction|exact Hin].
Qed.

Lemma scaled_bounds (n d : Z) :
  (0 < d)%Z ->
  (1 <= kubernetes.scaled n d)%Z /\
  (0 <= n -> kubernetes.scaled n d = Z.max 1 (n / d))%Z /\
  (n <= 0 -> kubernetes.scaled n d = 1)%Z /\
  (1 <= n -> kubernetes.scaled n d <= n)%Z.
Proof.
  intros Hd. unfold kubernetes.scaled.
  destruct (Z.ltb_spec (Z.quot n d) 1) as [Hlt|Hge].
  - split; [lia|]. split; [|split; [reflexivity|lia]].
    intros Hn. rewrite Z.quot_div_nonneg in Hlt by lia. lia.
  - split; [lia|]. split; [|split].
    + intros Hn. rewrite Z.quot_div_nonneg in * by lia. lia.
    + intros Hn. pose proof (Z.quot_opp_l n d ltac:(lia)).
      assert (0 <= Z.quot (- n) d)%Z by (apply Z.quot_pos; lia). lia.
    + intros Hn. rewrite Z.quot_div_nonneg in * by lia.
      assert (n / d <= n)%Z by (apply Z.div_le_upper_bound; nia). lia.
Qed.

(** X26: an integer quantity in millicores or with a binary memory
    suffix is divided in its unit: the result is the quotient, rounded
    towards zero and raised to one when it is smaller, followed by the
    same suffix. A quantity of zero or less becomes one unit; a quantity
    of one or more never grows. *)
Theorem divide_resource_scales (n divisor : Z) (unit : string) :
  (- 2 ^ 63 <= n < 2 ^ 63)%Z ->
  (0 < divisor)%Z ->
  unit ∈ "m" :: kubernetes.suffixes ->
  kubernetes.divideResource (strconv.Itoa n ++ unit) divisor
    = strconv.Itoa (kubernetes.scaled n divisor) ++ unit /\
  (1 <= kubernetes.scaled n divisor)%Z /\
  (0 <= n -> kubernetes.scaled n divisor = Z.max 1 (n / divisor))%Z /\
  (n <= 0 -> kubernetes.scaled n divisor = 1)%Z /\
  (1 <= n -> kubernetes.scaled n divisor <= n)%Z.
Proof.
  intros Hn Hd Hunit. split; [|apply scaled_bounds, Hd].
  unfold kubernetes.divideResource.
  rewrite app_not_empty by apply itoa_not_empty.
  replace (divisor <=? 0)%Z with false by (symmetry; apply Z.leb_gt; lia). cbn [orb].
  apply elem_of_cons in Hunit as [-> | Hunit].
  - rewrite has_suffix_within by (try apply itoa_not_empty; cbn; lia).
    change (String.eqb (strs.skip (String.length "m" - String.length "m") "m") "m") with true.
    cbv iota.
    change (kubernetes.trim (strconv.Itoa n ++ "m") 1)
      with (kubernetes.trim (strconv.Itoa n ++ "m") (String.length "m")).
    rewrite (trim_app (strconv.Itoa n) "m"), atoi_itoa by exact Hn. reflexivity.
  - assert (Hm : kubernetes.has_suffix (strconv.Itoa n ++ unit) "m" = false).
    { rewrite has_suffix_within.
      - unfold kubernetes.suffixes in Hunit.
        repeat (apply elem_of_cons in Hunit as [-> | Hunit]; [reflexivity|]).
        inversion Hunit.
      - apply itoa_not_empty.
      - unfold kubernetes.suffixes in Hunit.
        repeat (apply elem_of_cons in Hunit as [-> | Hunit]; [cbn; lia|]).
        inversion Hunit. }
    rewrite Hm.
    rewrite (divide_memory_hit (strconv.Itoa n) unit n divisor kubernetes.suffixes).
    + reflexivity.
    + apply itoa_not_empty.
    + apply atoi_itoa, Hn.
    + exact Hunit.
    + unfold kubernetes.suffixes in *.
      repeat (apply elem_of_cons in Hunit as [-> | Hunit]; [repeat constructor|]).
      inversion Hunit.
Qed.

Lemma divide_resource_scales_witness :
  kubernetes.divideResource (strconv.Itoa 256 ++ "Mi") 6 = "42Mi".
Proof.
  refine (eq_trans (proj1 (divide_resource_scales 256 6 "Mi" _ _ _)) _).
  - lia.
  - lia.
  - unfold kubernetes.suffixes. do 5 right. left.
  - reflexivity.
Defined.

Lemma numeric_app (a b : string) : numeric (a ++ b) = numeric a && numeric b.
Proof. induction a as [|c a IH]; cbn; [reflexivity|]. rewrite IH. apply andb_assoc. Qed.

Lemma utoa_numeric (fuel : nat) (n : Z) (acc : string) :
  (0 <= n)%Z -> numeric acc = true -> numeric (strconv.utoa fuel n acc) = true.
Proof.
  revert n acc. induction fuel as [|fuel IH]; intros n acc Hn Hacc; [exact Hacc|].
  cbn [strconv.utoa].
  assert (Hstep : numeric (String (strconv.digit_char (n mod 10)) acc) = true).
  { cbn [numeric]. rewrite digit_value_char by (apply Z.mod_pos_bound; lia).
    rewrite orb_true_r, Hacc. reflexivity. }
  destruct (n <? 10)%Z; [exact Hstep|]. apply IH; [apply Z.div_pos; lia|exact Hstep].
Qed.

Lemma itoa_numeric (n : Z) : numeric (strconv.Itoa n) = true.
Proof.
  unfold strconv.Itoa. destruct (Z.ltb_spec n 0).
  - cbn [numeric]. rewrite Ascii.eqb_refl. cbn [orb andb].
    apply utoa_numeric; [lia|reflexivity].
  - apply utoa_numeric; [lia|reflexivity].
Qed.

Lemma numeric_no_suffix (s suf : string) :
  numeric s = true -> numeric suf = false -> kubernetes.has_suffix s suf = false.
Proof.
  intros Hs Hsuf. destruct (kubernetes.has_suffix s suf) eqn:Hend; [|reflexivity].
  apply has_suffix_inv in Hend. rewrite Hend, numeric_app, Hsuf, andb_false_r in Hs.
  discriminate.
Qed.

(** X27: an integer quantity without unit is taken as a number of cores
    and answered in millicores: a thousand times the number, in an
    [int64], divided by the divisor and raised to one when smaller. *)
Theorem divide_resource_cores (n divisor : Z) :
  (- 2 ^ 63 <= n < 2 ^ 63)%Z ->
  (0 < divisor)%Z ->
  kubernetes.divideResource (strconv.Itoa n) divisor
    = strconv.Itoa (kubernetes.scaled (wrap64 (n * 1000)) divisor) ++ "m" /\
  ((0 <= n <= 9223372036854775)%Z ->
   kubernetes.scaled (wrap64 (n * 1000)) divisor = Z.max 1 (n * 1000 / divisor)).
Proof.
  intros Hn Hd. split.
  - unfold kubernetes.divideResource.
    replace (String.eqb (strconv.Itoa n) "") with false
      by (symmetry; apply String.eqb_neq, itoa_not_empty).
    replace (divisor <=? 0)%Z with false by (symmetry; apply Z.leb_gt; lia). cbn [orb].
    rewrite (numeric_no_suffix _ "m" (itoa_numeric n) eq_refl).
    assert (Hmem : forall sufs,
              Forall (fun suf => numeric suf = false) sufs ->
              kubernetes.divide_memory (strconv.Itoa n) divisor sufs = None).
    { induction 1 as [|suf sufs Hsuf _ IH]; [reflexivity|]. cbn [kubernetes.divide_memory].
      rewrite (numeric_no_suffix _ suf (itoa_numeric n) Hsuf). exact IH. }
    rewrite Hmem by (repeat constructor). rewrite atoi_itoa by exact Hn. reflexivity.
  - intros Hsmall. rewrite wrap64_small by lia.
    apply (scaled_bounds (n * 1000) divisor Hd). lia.
Qed.

Lemma divide_resource_cores_witness :
  kubernetes.divideResource (strconv.Itoa 1) 6 = "166m".
Proof.
  refine (eq_trans (proj1 (divide_resource_cores 1 6 _ _)) _); [lia|lia|reflexivity].
Defined.
